(** * GreenWave: the signal-synchronised navigation engine

    A shallow embedding of the TypeScript sources

      - [types.ts]                       the data model,
      - [services/locationService.ts]    haversine distance, speed smoothing,
                                         nearest route,
      - [services/storageService.ts]     the persisted route list,
      - [components/SignalRecorder.tsx]  the press/release cycle recorder,
      - [components/Navigator.tsx]       the phase predictor and speed advisor,
      - [App.tsx]                        the application shell,

    followed by the properties of the engine.

    Numbers.  A JavaScript [number] is an IEEE double.  Every finite double
    is a rational, and the recorder and the navigator only add, subtract,
    multiply, divide, compare and take remainders, so their numbers are
    modelled as exact rationals [Q]: rounding, [NaN] and the infinities are
    outside the model (the one [Infinity] of the code, the initial [minDist],
    is an [option]).  Numbers are compared with [==].  The statements made
    in this model are about which expression the code evaluates and about
    the outcome of its comparisons.

    The haversine distance is where rounding decides the result; it is
    modelled in binary64 arithmetic (module [IEEE]), with the functions
    [Math.sin], [Math.cos] and [Math.atan2], which ECMAScript leaves to the
    platform, as parameters.

    React.  A component's [useState]/[useRef] cells are the fields of a state
    record; a handler is a function from the values it reads ([Date.now()],
    [crypto.randomUUID()], props, the cells captured by its closure) and the
    old state to the new state. *)

From Stdlib Require Import ZArith QArith Qabs Qround Lia Lqa Floats.
From stdpp Require Import base list strings pretty.

(** ** JavaScript arithmetic on numbers *)

(** The type of JavaScript numbers in this model. *)
Abbreviation number := Q.

Module JS.

Local Open Scope Q_scope.

(** Truncation toward zero of a rational ([Math.trunc]). *)
Definition trunc (q : Q) : Z := Z.quot (Qnum q) (Zpos (Qden q)).

(** The remainder operator [a % b]: the result has the sign of the
    dividend, [a - b * trunc (a / b)].  For [b == 0] JavaScript yields
    [NaN]; the model is meant for [b] different from [0] only. *)
Definition rem (a b : number) : number := a - b * inject_Z (trunc (a / b)).

(** [a < b] as a test. *)
Definition lt (a b : number) : bool := if Qlt_le_dec a b then true else false.

(** [d < m] where [m] may still be [Infinity] ([None]). *)
Definition ltInf (d : number) (m : option number) : bool :=
  match m with
  | None => true
  | Some m' => lt d m'
  end.

End JS.

(** ** types.ts *)

Record Coordinate := {
  latitude : number;
  longitude : number
}.

Module SignalCycle.
Record SignalCycle := {
  greenDuration : number;
  yellowDuration : number;   (* fixed user setting *)
  redDuration : number;
  totalDuration : number
}.
End SignalCycle.
Abbreviation SignalCycle := SignalCycle.SignalCycle.

(** [location] is declared [Coordinate], but the only writer stores
    [userLocation!], an unchecked assertion on a nullable prop: the field
    holds [null] when no fix was available, hence the [option]. *)
Module Signal.
Record Signal := {
  id : string;
  name : string;
  location : option Coordinate;
  cycle : SignalCycle;
  referenceTimestamp : number;   (* UNIX timestamp of a known green start *)
  createdAt : number
}.
End Signal.
Abbreviation Signal := Signal.Signal.

Module Route.
Record Route := {
  id : string;
  name : string;
  startLocation : option Coordinate;
  endLocation : option Coordinate;
  path : list Coordinate;
  signals : list Signal;
  createdAt : number
}.
End Route.
Abbreviation Route := Route.Route.

Inductive SignalPhase := GREEN | YELLOW | RED.

Inductive RecommendedAction := MAINTAIN | ACCELERATE | DECELERATE | STOP.

Record NavigationState := {
  currentSpeedKmh : number;
  distanceToSignal : number;          (* meters *)
  targetSignalId : option string;
  etaSeconds : number;
  recommendedAction : RecommendedAction;
  targetSpeedKmh : option number;
  timeToPhaseChange : number;
  nextPhase : SignalPhase;
  currentPhase : SignalPhase
}.

(** The cycle invariant of the data model: every duration strictly positive
    and the total equal to the sum of the parts. *)
Definition validCycle (c : SignalCycle) : Prop :=
  (0 < SignalCycle.greenDuration c /\
   0 < SignalCycle.yellowDuration c /\
   0 < SignalCycle.redDuration c /\
   SignalCycle.totalDuration c ==
     SignalCycle.greenDuration c + SignalCycle.yellowDuration c + SignalCycle.redDuration c)%Q.

(** ** services/locationService.ts *)

Module LocationService.

(** Simple moving average for speed smoothing. *)
Definition calculateSmoothedSpeed (speedHistory : list number) : number :=
  match speedHistory with
  | [] => 0%Q
  | _ =>
      let sum := fold_left Qplus speedHistory 0%Q in
      (sum / inject_Z (Z.of_nat (length speedHistory)))%Q
  end.

End LocationService.

(** ** services/locationService.ts: the distance, in double precision *)

Module IEEE.

Local Open Scope float_scope.

(** A [Coordinate] as the platform holds it: two doubles. *)
Record Coordinate := {
  latitude : float;
  longitude : float
}.

(** The functions of [Math] called by [calculateDistance] whose values
    ECMAScript leaves to the platform.  ([Math.sqrt] is the square root
    of IEEE 754 on every engine and is [PrimFloat.sqrt] here.) *)
Record Math := {
  sin : float -> float;
  cos : float -> float;
  atan2 : float -> float -> float
}.

(** [Math.PI], the double 3.141592653589793. *)
Definition PI : float := 0x1.921fb54442d18p+1.

(** [const R = 6371e3], the Earth radius in meters. *)
Definition R : float := 6371000.

(** Haversine formula. *)
Definition calculateDistance (M : Math) (coord1 coord2 : Coordinate) : float :=
  let lat1 := (latitude coord1 * PI) / 180 in
  let lat2 := (latitude coord2 * PI) / 180 in
  let deltaLat := ((latitude coord2 - latitude coord1) * PI) / 180 in
  let deltaLon := ((longitude coord2 - longitude coord1) * PI) / 180 in
  let a :=
    sin M (deltaLat / 2) * sin M (deltaLat / 2) +
    cos M lat1 * cos M lat2 * sin M (deltaLon / 2) * sin M (deltaLon / 2) in
  let c := 2 * atan2 M (sqrt a) (sqrt (1 - a)) in
  R * c.

(** [x == y] on numbers: false as soon as one side is [NaN]. *)
Definition eq (x y : float) : bool := x =? y.

(** ECMAScript on [Math.atan2 (y, x)]: the result is [NaN] when [x] is
    [NaN]. *)
Definition atan2OfNaN (M : Math) : Prop := forall y, atan2 M y nan = nan.

(** The platform's sine and cosine at 8 degrees and at a right angle, as
    doubles: the arguments are [8 * Math.PI / 180] and [Math.PI / 2], the
    values are the doubles nearest to the exact sine and cosine. *)
Definition eightDegrees : float := 0x1.1df46a2529d39p-3.
Definition rightAngle : float := 0x1.921fb54442d18p+0.

Definition nearestAtEightDegrees (M : Math) : Prop :=
  sin M eightDegrees = 0x1.1d06c968d9e19p-3 /\
  sin M (- eightDegrees) = -0x1.1d06c968d9e19p-3 /\
  cos M eightDegrees = 0x1.fb046a930947ap-1 /\
  cos M (- eightDegrees) = 0x1.fb046a930947ap-1 /\
  sin M rightAngle = 1 /\
  sin M (- rightAngle) = -1.

End IEEE.

(** ** services/storageService.ts *)

Module StorageService.

(** The content of [localStorage] under [STORAGE_KEY]: [None] when the key
    was never written.  The stored text is [JSON.stringify routes] and is
    only ever read back through [JSON.parse], so it is represented by the
    route list it encodes. *)
Definition Storage : Type := option (list Route).

Definition parseOrEmpty (existingData : Storage) : list Route :=
  match existingData with
  | Some routes => routes
  | None => []
  end.

(** [Array.prototype.findIndex]: the index of the first element that
    satisfies [p], [-1] when there is none. *)
Fixpoint findIndexFrom {A} (p : A -> bool) (l : list A) (i : Z) : Z :=
  match l with
  | [] => (-1)%Z
  | x :: l' => if p x then i else findIndexFrom p l' (i + 1)%Z
  end.

Definition findIndex {A} (p : A -> bool) (l : list A) : Z := findIndexFrom p l 0%Z.

Definition saveRoute (route : Route) (storage : Storage) : Storage :=
  let routes := parseOrEmpty storage in
  let index := findIndex (fun r => bool_decide (Route.id r = Route.id route)) routes in
  if (0 <=? index)%Z
  then Some (<[Z.to_nat index := route]> routes)
  else Some (routes ++ [route]).

Definition getRoutes (storage : Storage) : list Route := parseOrEmpty storage.

(** [Array.prototype.find]. *)
Definition getRouteById (id : string) (storage : Storage) : option Route :=
  List.find (fun r => bool_decide (Route.id r = id)) (getRoutes storage).

(** [deleteRoute] reads the routes, is suspended at its [await], and then
    writes the filtered list: the two halves ... *)
Definition deleteRouteResume (id : string) (routes : list Route) : Storage :=
  let filtered := filter (fun r => Route.id r <> id) routes in
  Some filtered.

(** ... and the whole call when nothing else runs at the [await]. *)
Definition deleteRoute (id : string) (storage : Storage) : Storage :=
  let routes := getRoutes storage in
  deleteRouteResume id routes.

(** A sequence of calls, each awaited before the next. *)
Inductive Call :=
| SaveRoute (route : Route)
| DeleteRoute (id : string).

Definition call (storage : Storage) (c : Call) : Storage :=
  match c with
  | SaveRoute route => saveRoute route storage
  | DeleteRoute id => deleteRoute id storage
  end.

Definition calls (cs : list Call) (storage : Storage) : Storage :=
  fold_left call cs storage.

(** Calls that are not awaited: a [deleteRoute] suspended at its [await]
    holds the routes it has read until it is resumed. *)
Record World := {
  storage : Storage;
  suspended : list (string * list Route)
}.

Inductive Action :=
| CallSaveRoute (route : Route)
| CallDeleteRoute (id : string)
| ResumeDeleteRoute (k : nat).

Definition act (w : World) (a : Action) : World :=
  match a with
  | CallSaveRoute route =>
      {| storage := saveRoute route (storage w); suspended := suspended w |}
  | CallDeleteRoute id =>
      {| storage := storage w;
         suspended := suspended w ++ [(id, getRoutes (storage w))] |}
  | ResumeDeleteRoute k =>
      match suspended w !! k with
      | Some (id, routes) =>
          {| storage := deleteRouteResume id routes;
             suspended := delete k (suspended w) |}
      | None => w
      end
  end.

Definition acts (l : list Action) (w : World) : World := fold_left act l w.

(** The ids of the stored routes, in order. *)
Definition ids (storage : Storage) : list string :=
  Route.id <$> getRoutes storage.

(** One route per id, in the storage and in every list held by a
    suspended [deleteRoute]. *)
Definition uniqueIds (w : World) : Prop :=
  NoDup (ids (storage w)) /\
  Forall (fun s => NoDup (Route.id <$> snd s)) (suspended w).

End StorageService.

(** ** components/SignalRecorder.tsx *)

Module SignalRecorder.

Local Open Scope Q_scope.

Inductive Phase := INIT_ROUTE | DRIVING | RECORDING_SIGNAL | SAVING.

(** The recorder's own [SignalPhase], local to the component. *)
Inductive SignalPhase := WAITING_GREEN | GREEN | YELLOW | RED.

Record CycleData := {
  greenStart : number;
  greenEnd : number;
  redStart : number
}.

(** The [useState] cells of the component, and the [setTimeout] callbacks
    that were scheduled and have not run yet (their delays, in
    milliseconds, oldest first). *)
Record State := {
  uiPhase : Phase;
  routeName : string;
  routeId : string;
  recordedPath : list Coordinate;
  recordedSignals : list Signal;
  signalPhase : SignalPhase;
  yellowDuration : number;
  cycleData : CycleData;
  timers : list number
}.

Definition initialState (routeId : string) : State :=
  {| uiPhase := INIT_ROUTE;
     routeName := "";
     routeId := routeId;
     recordedPath := [];
     recordedSignals := [];
     signalPhase := WAITING_GREEN;
     yellowDuration := 3;
     cycleData := {| greenStart := 0; greenEnd := 0; redStart := 0 |};
     timers := [] |}.

(** The state setters. *)
Definition setUiPhase (p : Phase) (st : State) : State :=
  {| uiPhase := p;
     routeName := routeName st;
     routeId := routeId st;
     recordedPath := recordedPath st;
     recordedSignals := recordedSignals st;
     signalPhase := signalPhase st;
     yellowDuration := yellowDuration st;
     cycleData := cycleData st;
     timers := timers st |}.

Definition setSignalPhase (p : SignalPhase) (st : State) : State :=
  {| uiPhase := uiPhase st;
     routeName := routeName st;
     routeId := routeId st;
     recordedPath := recordedPath st;
     recordedSignals := recordedSignals st;
     signalPhase := p;
     yellowDuration := yellowDuration st;
     cycleData := cycleData st;
     timers := timers st |}.

Definition setCycleData (f : CycleData -> CycleData) (st : State) : State :=
  {| uiPhase := uiPhase st;
     routeName := routeName st;
     routeId := routeId st;
     recordedPath := recordedPath st;
     recordedSignals := recordedSignals st;
     signalPhase := signalPhase st;
     yellowDuration := yellowDuration st;
     cycleData := f (cycleData st);
     timers := timers st |}.

Definition setRecordedSignals (f : list Signal -> list Signal) (st : State) : State :=
  {| uiPhase := uiPhase st;
     routeName := routeName st;
     routeId := routeId st;
     recordedPath := recordedPath st;
     recordedSignals := f (recordedSignals st);
     signalPhase := signalPhase st;
     yellowDuration := yellowDuration st;
     cycleData := cycleData st;
     timers := timers st |}.

Definition setTimers (f : list number -> list number) (st : State) : State :=
  {| uiPhase := uiPhase st;
     routeName := routeName st;
     routeId := routeId st;
     recordedPath := recordedPath st;
     recordedSignals := recordedSignals st;
     signalPhase := signalPhase st;
     yellowDuration := yellowDuration st;
     cycleData := cycleData st;
     timers := f (timers st) |}.

(** [setTimeout callback delay]: the callback of the recorder is always
    [yellowTimerFired] below, so only the delay is kept. *)
Definition setTimeout (delay : number) (st : State) : State :=
  setTimers (fun ts => ts ++ [delay]) st.

(** [handleSignalPress].  [userLocation] is the prop, [now] the value of
    [Date.now()] on entry, [uuid] the value of [crypto.randomUUID()] and
    [createdAt] the second reading of [Date.now()]. *)
Definition handleSignalPress (userLocation : option Coordinate)
    (now : number) (uuid : string) (createdAt : number) (st : State) : State :=
  match signalPhase st with
  | WAITING_GREEN =>
      setCycleData (fun prev =>
          {| greenStart := now; greenEnd := greenEnd prev; redStart := redStart prev |})
        (setSignalPhase GREEN st)
  | RED =>
      (* Cycle Complete *)
      let redDuration := (now - redStart (cycleData st)) / 1000 in
      let greenDuration := (greenEnd (cycleData st) - greenStart (cycleData st)) / 1000 in
      let newSignal :=
        {| Signal.id := uuid;
           Signal.name := "Signal #" +:+ pretty (length (recordedSignals st) + 1)%nat;
           Signal.location := userLocation;
           Signal.cycle :=
             {| SignalCycle.greenDuration := greenDuration;
                SignalCycle.yellowDuration := yellowDuration st;
                SignalCycle.redDuration := redDuration;
                SignalCycle.totalDuration := greenDuration + yellowDuration st + redDuration |};
           Signal.referenceTimestamp := greenStart (cycleData st);
           Signal.createdAt := createdAt |} in
      setSignalPhase WAITING_GREEN       (* reset for next signal *)
        (setUiPhase DRIVING              (* return to driving mode *)
          (setRecordedSignals (fun prev => prev ++ [newSignal]) st))
  | _ => st
  end.

(** [handleSignalRelease]; [now] is the value of [Date.now()]. *)
Definition handleSignalRelease (now : number) (st : State) : State :=
  match signalPhase st with
  | GREEN =>
      setTimeout (yellowDuration st * 1000)
        (setCycleData (fun prev =>
            {| greenStart := greenStart prev; greenEnd := now; redStart := redStart prev |})
          (setSignalPhase YELLOW st))
  | _ => st
  end.

(** The callback given to [setTimeout]: the automatic transition from
    yellow to red.  [now] is its own reading of [Date.now()]. *)
Definition yellowTimerFired (now : number) (st : State) : State :=
  setCycleData (fun prev =>
      {| greenStart := greenStart prev; greenEnd := greenEnd prev; redStart := now |})
    (setSignalPhase RED st).

(** What can happen to a mounted recorder: the two gestures, and the
    expiry of the oldest pending timer. *)
Inductive Event :=
| Press (userLocation : option Coordinate) (now : number) (uuid : string) (createdAt : number)
| Release (now : number)
| TimerExpires (now : number).

Definition step (st : State) (ev : Event) : State :=
  match ev with
  | Press userLocation now uuid createdAt =>
      handleSignalPress userLocation now uuid createdAt st
  | Release now => handleSignalRelease now st
  | TimerExpires now =>
      match timers st with
      | [] => st
      | _ :: pending => yellowTimerFired now (setTimers (fun _ => pending) st)
      end
  end.

Definition run (evs : list Event) (st : State) : State := fold_left step evs st.

(** [finishRoute], up to the call of [saveRoute]: the new state and the
    route handed to the storage service.  [createdAt] is the value of
    [Date.now()]. *)
Definition finishRoute (createdAt : number) (st : State) : State * Route :=
  let fullRoute :=
    {| Route.id := routeId st;
       Route.name := routeName st;
       Route.path := recordedPath st;
       Route.signals := recordedSignals st;
       Route.createdAt := createdAt;
       Route.startLocation := head (recordedPath st);
       Route.endLocation := last (recordedPath st) |} in
  (setUiPhase SAVING st, fullRoute).

End SignalRecorder.

(** ** components/Navigator.tsx *)

Module Navigator.

Local Open Scope Q_scope.

(** The content of the [lastPosition] ref. *)
Record Position := {
  lat : number;
  lng : number;
  time : number
}.

(** The two [useRef] cells. *)
Record Refs := {
  speedHistory : list number;
  lastPosition : option Position
}.

Definition initialNavState : NavigationState :=
  {| currentSpeedKmh := 0;
     distanceToSignal := 0;
     targetSignalId := None;
     etaSeconds := 0;
     recommendedAction := MAINTAIN;
     targetSpeedKmh := None;
     timeToPhaseChange := 0;
     nextPhase := GREEN;
     currentPhase := GREEN |}.

(** What one run of [updateNavigationLogic] does to the [navState] cell:
    it returns early, it dies on a [TypeError] (a signal whose [location]
    is [null]), or it calls [setNavState]. *)
Inductive Outcome :=
| Return
| Throw
| SetNavState (next : NavigationState).

(** The phase computation: from the position [cyclePos] in the cycle to the
    current phase, the time to the next change and the next phase. *)
Definition phaseAt (cycle : SignalCycle) (cyclePos : number)
    : SignalPhase * number * SignalPhase :=
  let greenDuration := SignalCycle.greenDuration cycle in
  let yellowDuration := SignalCycle.yellowDuration cycle in
  let totalDuration := SignalCycle.totalDuration cycle in
  if JS.lt cyclePos greenDuration then
    (GREEN, greenDuration - cyclePos, YELLOW)
  else if JS.lt cyclePos (greenDuration + yellowDuration) then
    (YELLOW, (greenDuration + yellowDuration) - cyclePos, RED)
  else
    (RED, totalDuration - cyclePos, GREEN).

Definition cycleTime (signal : Signal) (now : number) : number :=
  (now - Signal.referenceTimestamp signal) / 1000.

Definition cyclePos (signal : Signal) (now : number) : number :=
  JS.rem (cycleTime signal now) (SignalCycle.totalDuration (Signal.cycle signal)).

(** The recommendation logic: the action and the optional target speed
    (km/h). *)
Definition recommend (dist eta : number) (currentPhase : SignalPhase)
    (timeToChange : number) : RecommendedAction * option number :=
  if JS.lt dist 20 then
    (match currentPhase with RED => STOP | _ => MAINTAIN end, None)
  else
    (* ETA vs Phase *)
    match currentPhase with
    | GREEN =>
        if JS.lt eta timeToChange then (MAINTAIN, None) else (DECELERATE, None)
    | RED =>
        if JS.lt eta timeToChange then
          let idealSpeedMps := dist / timeToChange in
          (DECELERATE, Some (idealSpeedMps * 3.6))
        else (MAINTAIN, None)
    | YELLOW => (MAINTAIN, None)
    end.

Section WithDistance.

(** The tick orders distances, compares them with 20 and divides them;
    it is stated for an arbitrary rational-valued [calculateDistance]. *)
Variable calculateDistance : Coordinate -> Coordinate -> number.

(** [handlePositionUpdate]: [coords] is the new fix, [now] the value of
    [Date.now()], [prev] the [navState] cell. *)
Definition handlePositionUpdate (coords : number * number) (now : number)
    (refs : Refs) (prev : NavigationState) : Refs * NavigationState :=
  let currentSpeedMps :=
    match lastPosition refs with
    | Some last =>
        let dist := calculateDistance
                      {| latitude := lat last; longitude := lng last |}
                      {| latitude := fst coords; longitude := snd coords |} in
        let timeDiff := (now - time last) / 1000 in
        if JS.lt 0 timeDiff then dist / timeDiff else 0
    | None => 0
    end in
  (* update history ring buffer *)
  let pushed := speedHistory refs ++ [currentSpeedMps] in
  let history := if (5 <? length pushed)%nat then tail pushed else pushed in
  let smoothedMps := LocationService.calculateSmoothedSpeed history in
  let displaySpeed := if JS.lt smoothedMps 0.5 then 0 else smoothedMps * 3.6 in
  ({| speedHistory := history;
      lastPosition := Some {| lat := fst coords; lng := snd coords; time := now |} |},
   {| currentSpeedKmh := displaySpeed;
      distanceToSignal := distanceToSignal prev;
      targetSignalId := targetSignalId prev;
      etaSeconds := etaSeconds prev;
      recommendedAction := recommendedAction prev;
      targetSpeedKmh := targetSpeedKmh prev;
      timeToPhaseChange := timeToPhaseChange prev;
      nextPhase := nextPhase prev;
      currentPhase := currentPhase prev |}).

(** The [forEach] that finds the closest signal; [minDist] starts at
    [Infinity] ([None]).  [None] as a result is the [TypeError] raised by
    [calculateDistance] on a [null] location. *)
Fixpoint nearestLoop (userLoc : Coordinate) (signals : list Signal)
    (nearestSignal : Signal) (minDist : option number)
    : option (Signal * option number) :=
  match signals with
  | [] => Some (nearestSignal, minDist)
  | sig :: rest =>
      match Signal.location sig with
      | None => None
      | Some location =>
          let d := calculateDistance userLoc location in
          if JS.ltInf d minDist
          then nearestLoop userLoc rest sig (Some d)
          else nearestLoop userLoc rest nearestSignal minDist
      end
  end.

(** [updateNavigationLogic].  [route] and [lastPosition] are the cells read
    on entry, [navState] is the state captured by the closure (read for the
    speed), [now] the value of [Date.now()], and [prev] the state that the
    updater given to [setNavState] receives. *)
Definition updateNavigationLogic (route : option Route) (lastPosition : option Position)
    (navState : NavigationState) (now : number) (prev : NavigationState) : Outcome :=
  match route, lastPosition with
  | Some route, Some last =>
      match Route.signals route with
      | [] => Return
      | first :: _ =>
          (* find closest signal *)
          let userLoc := {| latitude := lat last; longitude := lng last |} in
          match nearestLoop userLoc (Route.signals route) first None with
          | None => Throw
          | Some (_, None) =>
              (* [minDist] still [Infinity]: impossible after a non-empty
                 loop over finite distances, see [nearestLoop_finite] *)
              Return
          | Some (nearestSignal, Some minDist) =>
              let dist := minDist in
              let speedMps := currentSpeedKmh navState / 3.6 in
              let eta := if JS.lt 0 speedMps then dist / speedMps else 999 in
              (* calculate signal phase *)
              let '(currentPhase, timeToChange, nextPhase) :=
                phaseAt (Signal.cycle nearestSignal) (cyclePos nearestSignal now) in
              (* recommendation logic *)
              let '(action, targetSpeed) :=
                recommend dist eta currentPhase timeToChange in
              SetNavState
                {| currentSpeedKmh := currentSpeedKmh prev;
                   distanceToSignal := dist;
                   targetSignalId := targetSignalId prev;
                   etaSeconds := eta;
                   recommendedAction := action;
                   targetSpeedKmh := targetSpeed;
                   timeToPhaseChange := timeToChange;
                   nextPhase := nextPhase;
                   currentPhase := currentPhase |}
          end
      end
  | _, _ => Return
  end.

End WithDistance.

End Navigator.

(** ** The phase predictor in the words of the specification *)

Module Spec.

Local Open Scope Q_scope.

(** Follows the specification (section 4.3, step 1), for comparison with
    the source's [Navigator.cyclePos]: the elapsed time wrapped into
    [[0, totalDuration)] by the mathematical modulo. *)
Definition wrap (elapsed totalDuration : number) : number :=
  elapsed - totalDuration * inject_Z (Qfloor (elapsed / totalDuration)).

(** Follows the specification (section 4.3, steps 2 to 4): the phase, the
    time to the next change and the next phase at wrapped elapsed time
    [e]. *)
Definition phaseRule (cycle : SignalCycle) (e : number)
    : SignalPhase * number * SignalPhase :=
  if JS.lt e (SignalCycle.greenDuration cycle) then
    (GREEN, SignalCycle.greenDuration cycle - e, YELLOW)
  else if JS.lt e (SignalCycle.greenDuration cycle + SignalCycle.yellowDuration cycle) then
    (YELLOW, (SignalCycle.greenDuration cycle + SignalCycle.yellowDuration cycle) - e, RED)
  else
    (RED, SignalCycle.totalDuration cycle - e, GREEN).

(** [PhasePredictor (signal, now)], timestamps in milliseconds as in the
    source, durations in seconds. *)
Definition PhasePredictor (signal : Signal) (now : number)
    : SignalPhase * number * SignalPhase :=
  let elapsed := (now - Signal.referenceTimestamp signal) / 1000 in
  phaseRule (Signal.cycle signal)
    (wrap elapsed (SignalCycle.totalDuration (Signal.cycle signal))).

(** Two phase results are the same up to [==] on the time to change. *)
Definition samePhase (x y : SignalPhase * number * SignalPhase) : Prop :=
  fst (fst x) = fst (fst y) /\ snd (fst x) == snd (fst y) /\ snd x = snd y.

(** Follows the specification (section 4.4, inputs): the smoothed speed
    in m/s, the mean of the window of speed samples, 0 for an empty window,
    with speeds below 0.5 m/s clamped to 0. *)
Definition smoothedSpeed (window : list number) : number :=
  let mean :=
    match window with
    | [] => 0
    | _ => fold_left Qplus window 0 / inject_Z (Z.of_nat (length window))
    end in
  if JS.lt mean 0.5 then 0 else mean.

(** Follows the specification (section 4.4, step 2): the ETA in seconds at
    [speed] m/s, [sentinel] being the "large sentinel value". *)
Definition eta (sentinel distance speed : number) : number :=
  if JS.lt 0 speed then distance / speed else sentinel.

(** Follows the specification (section 4.4, steps 1 to 4): the
    recommendation and the optional target speed (m/s) of [SpeedAdvisor].
    The steps name no rule for YELLOW; the default MAINTAIN is kept. *)
Definition SpeedAdvisor (sentinel distance speed : number) (phase : SignalPhase)
    (timeToChange : number) : RecommendedAction * option number :=
  if JS.lt distance 20 then
    (match phase with RED => STOP | _ => MAINTAIN end, None)
  else
    let eta := eta sentinel distance speed in
    match phase with
    | GREEN => if JS.lt eta timeToChange then (MAINTAIN, None) else (DECELERATE, None)
    | RED =>
        if JS.lt eta timeToChange
        then (DECELERATE, Some (distance / timeToChange))
        else (MAINTAIN, None)
    | YELLOW => (MAINTAIN, None)
    end.

End Spec.

(** ** Sample data *)

Module Sample.

Local Open Scope Q_scope.

(** The cycle of the specification's examples: 30 s green, 3 s yellow,
    27 s red. *)
Definition cycle60 : SignalCycle :=
  {| SignalCycle.greenDuration := 30;
     SignalCycle.yellowDuration := 3;
     SignalCycle.redDuration := 27;
     SignalCycle.totalDuration := 60 |}.

Definition here : Coordinate := {| latitude := 35.68; longitude := 139.76 |}.

(** A signal with cycle [cycle60] anchored at [T] (milliseconds). *)
Definition signalAt (T : number) : Signal :=
  {| Signal.id := "s1";
     Signal.name := "Signal #1";
     Signal.location := Some here;
     Signal.cycle := cycle60;
     Signal.referenceTimestamp := T;
     Signal.createdAt := T |}.

Definition routeOf (signals : list Signal) : Route :=
  {| Route.id := "r1";
     Route.name := "Commute";
     Route.startLocation := None;
     Route.endLocation := None;
     Route.path := [];
     Route.signals := signals;
     Route.createdAt := 0 |}.

Definition routeNamed (id name : string) : Route :=
  {| Route.id := id;
     Route.name := name;
     Route.startLocation := None;
     Route.endLocation := None;
     Route.path := [];
     Route.signals := [];
     Route.createdAt := 0 |}.

Definition fix0 : Navigator.Position :=
  {| Navigator.lat := 35.68; Navigator.lng := 139.76; Navigator.time := 0 |}.

(** A navigation state whose speed is [kmh]. *)
Definition cruising (kmh : number) : NavigationState :=
  {| currentSpeedKmh := kmh;
     distanceToSignal := 0;
     targetSignalId := None;
     etaSeconds := 0;
     recommendedAction := MAINTAIN;
     targetSpeedKmh := None;
     timeToPhaseChange := 0;
     nextPhase := GREEN;
     currentPhase := GREEN |}.

(** A distance function that always answers [d] meters. *)
Definition constantDistance (d : number) : Coordinate -> Coordinate -> number :=
  fun _ _ => d.

(** One tick against the single signal [signalAt T], [d] meters away, at
    time [now], driving at [kmh]. *)
Definition tick (d T now kmh : number) : Navigator.Outcome :=
  Navigator.updateNavigationLogic (constantDistance d)
    (Some (routeOf [signalAt T])) (Some fix0) (cruising kmh) now (cruising kmh).

(** A recorder that has been started and shows the recording overlay. *)
Definition recording : SignalRecorder.State :=
  SignalRecorder.setUiPhase SignalRecorder.RECORDING_SIGNAL
    (SignalRecorder.initialState "r1").

End Sample.

(** ** services/locationService.ts: findNearestRoute *)

Module RouteFinder.

Local Open Scope Q_scope.

Section WithDistance.

(** As for the navigator's tick, the search is stated for an arbitrary
    rational-valued [calculateDistance]. *)
Variable calculateDistance : Coordinate -> Coordinate -> number.

(** The inner [for (const signal of route.signals)].  [minDistance] starts
    at [Infinity] ([None]); the result [None] is the [TypeError] raised by
    [calculateDistance] on a [null] location. *)
Fixpoint signalsLoop (userLocation : Coordinate) (thresholdMeters : number)
    (route : Route) (signals : list Signal)
    (bestRoute : option Route) (minDistance : option number)
    : option (option Route * option number) :=
  match signals with
  | [] => Some (bestRoute, minDistance)
  | signal :: rest =>
      match Signal.location signal with
      | None => None
      | Some location =>
          let dist := calculateDistance userLocation location in
          if JS.lt dist thresholdMeters && JS.ltInf dist minDistance
          then signalsLoop userLocation thresholdMeters route rest (Some route) (Some dist)
          else signalsLoop userLocation thresholdMeters route rest bestRoute minDistance
      end
  end.

(** The outer [for (const route of routes)]. *)
Fixpoint routesLoop (userLocation : Coordinate) (thresholdMeters : number)
    (routes : list Route) (bestRoute : option Route) (minDistance : option number)
    : option (option Route * option number) :=
  match routes with
  | [] => Some (bestRoute, minDistance)
  | route :: rest =>
      match signalsLoop userLocation thresholdMeters route (Route.signals route)
              bestRoute minDistance with
      | None => None
      | Some (bestRoute', minDistance') =>
          routesLoop userLocation thresholdMeters rest bestRoute' minDistance'
      end
  end.

(** [findNearestRoute]; the threshold is optional and defaults to 50.
    The outer [None] is a [TypeError], [Some None] is the result [null]. *)
Definition findNearestRoute (userLocation : Coordinate) (routes : list Route)
    (thresholdMeters : option number) : option (option Route) :=
  let thresholdMeters := default 50 thresholdMeters in
  match routesLoop userLocation thresholdMeters routes None None with
  | None => None
  | Some (bestRoute, _) => Some bestRoute
  end.

End WithDistance.

End RouteFinder.

(** ** components/Navigator.tsx: the mounted component *)

Module NavigatorComponent.

Local Open Scope Q_scope.

(** The cells of a mounted navigator, and [captured]: the [navState] that
    the callback registered with [setInterval] has closed over.  The
    interval is re-registered by the effect with dependencies
    [[route, userLocation]] only, so the callback keeps the [navState] of
    the render in which one of these two last changed. *)
Record Component := {
  routeId : string;
  route : option Route;
  refs : Navigator.Refs;
  navState : NavigationState;
  captured : NavigationState
}.

Definition mount (routeId : string) : Component :=
  {| routeId := routeId;
     route := None;
     refs := {| Navigator.speedHistory := []; Navigator.lastPosition := None |};
     navState := Navigator.initialNavState;
     captured := Navigator.initialNavState |}.

Inductive Event :=
| RouteFetched (storage : StorageService.Storage)   (* [getRouteById] has answered *)
| LocationChanged (coords : number * number) (now : number)   (* new [userLocation] prop *)
| IntervalFires (now : number).

Section WithDistance.

Variable calculateDistance : Coordinate -> Coordinate -> number.

Definition step (c : Component) (ev : Event) : Component :=
  match ev with
  | RouteFetched storage =>
      match StorageService.getRouteById (routeId c) storage with
      | Some r =>
          {| routeId := routeId c;
             route := Some r;
             refs := refs c;
             navState := navState c;
             captured := navState c |}
      | None => c
      end
  | LocationChanged coords now =>
      let '(refs', next) :=
        Navigator.handlePositionUpdate calculateDistance coords now (refs c) (navState c) in
      {| routeId := routeId c;
         route := route c;
         refs := refs';
         navState := next;
         captured := navState c |}
  | IntervalFires now =>
      match Navigator.updateNavigationLogic calculateDistance (route c)
              (Navigator.lastPosition (refs c)) (captured c) now (navState c) with
      | Navigator.SetNavState next =>
          {| routeId := routeId c;
             route := route c;
             refs := refs c;
             navState := next;
             captured := captured c |}
      | _ => c
      end
  end.

Definition run (evs : list Event) (c : Component) : Component := fold_left step evs c.

End WithDistance.

(** What [handlePositionUpdate] displays for a window of speed samples:
    the smoothed speed in km/h, 0 below 0.5 m/s. *)
Definition displaySpeed (history : list number) : number :=
  let smoothedMps := LocationService.calculateSmoothedSpeed history in
  if JS.lt smoothedMps 0.5 then 0 else smoothedMps * 3.6.

(** The ring buffer after one more sample: [push], then [shift] when more
    than five are held. *)
Definition pushSample (history : list number) (sample : number) : list number :=
  let pushed := history ++ [sample] in
  if (5 <? length pushed)%nat then tail pushed else pushed.


End NavigatorComponent.

(** ** components/SignalRecorder.tsx: the recording session *)

Module RecorderSession.

Local Open Scope Q_scope.

Definition setRouteName (name : string) (st : SignalRecorder.State) : SignalRecorder.State :=
  {| SignalRecorder.uiPhase := SignalRecorder.uiPhase st;
     SignalRecorder.routeName := name;
     SignalRecorder.routeId := SignalRecorder.routeId st;
     SignalRecorder.recordedPath := SignalRecorder.recordedPath st;
     SignalRecorder.recordedSignals := SignalRecorder.recordedSignals st;
     SignalRecorder.signalPhase := SignalRecorder.signalPhase st;
     SignalRecorder.yellowDuration := SignalRecorder.yellowDuration st;
     SignalRecorder.cycleData := SignalRecorder.cycleData st;
     SignalRecorder.timers := SignalRecorder.timers st |}.

Definition setRecordedPath (f : list Coordinate -> list Coordinate)
    (st : SignalRecorder.State) : SignalRecorder.State :=
  {| SignalRecorder.uiPhase := SignalRecorder.uiPhase st;
     SignalRecorder.routeName := SignalRecorder.routeName st;
     SignalRecorder.routeId := SignalRecorder.routeId st;
     SignalRecorder.recordedPath := f (SignalRecorder.recordedPath st);
     SignalRecorder.recordedSignals := SignalRecorder.recordedSignals st;
     SignalRecorder.signalPhase := SignalRecorder.signalPhase st;
     SignalRecorder.yellowDuration := SignalRecorder.yellowDuration st;
     SignalRecorder.cycleData := SignalRecorder.cycleData st;
     SignalRecorder.timers := SignalRecorder.timers st |}.

(** The callback of the path interval (every 2 s while driving or
    recording): with a position fix it appends the fix to the path and
    gives the growing route to [onRouteUpdated]; [now] is [Date.now()]. *)
Definition samplePath (userLocation : option Coordinate) (now : number)
    (st : SignalRecorder.State) : SignalRecorder.State * option Route :=
  match userLocation with
  | Some location =>
      let newPath := SignalRecorder.recordedPath st ++ [location] in
      (setRecordedPath (fun prev => prev ++ [location]) st,
       Some {| Route.id := SignalRecorder.routeId st;
               Route.name := if String.eqb (SignalRecorder.routeName st) ""
                             then "New Route" else SignalRecorder.routeName st;
               Route.path := newPath;
               Route.signals := SignalRecorder.recordedSignals st;
               Route.createdAt := now;
               Route.startLocation := None;
               Route.endLocation := None |})
  | None => (st, None)
  end.

(** The session: the recorder's cells, the last route given to
    [onRouteUpdated], the route given to [saveRoute], and whether the
    component is still mounted ([onBack] unmounts it). *)
Record Session := {
  recorder : SignalRecorder.State;
  preview : option Route;
  handedOver : option Route;
  mounted : bool
}.

Definition open (routeId : string) : Session :=
  {| recorder := SignalRecorder.initialState routeId;
     preview := None;
     handedOver := None;
     mounted := true |}.

Definition withRecorder (st : SignalRecorder.State) (s : Session) : Session :=
  {| recorder := st; preview := preview s; handedOver := handedOver s; mounted := mounted s |}.

(** What the user and the timers can do to the session. *)
Inductive UiEvent :=
| TypeName (value : string)              (* the name input *)
| Cancel                                 (* "Cancel": [onBack] *)
| StartDriving (timeString : string)     (* "Start Driving": [startRoute] *)
| RecordSignalHere                       (* "Record Signal Here" *)
| Recorder (ev : SignalRecorder.Event)   (* overlay gestures, timer expiry *)
| PathInterval (userLocation : option Coordinate) (now : number)
| Finish (createdAt : number).           (* "Finish": [finishRoute] *)

(** The recording overlay (and its two handlers) is rendered in every phase
    but [INIT_ROUTE] and [DRIVING]. *)
Definition overlayShown (p : SignalRecorder.Phase) : bool :=
  match p with
  | SignalRecorder.RECORDING_SIGNAL | SignalRecorder.SAVING => true
  | _ => false
  end.

(** The path interval runs while driving or recording. *)
Definition pathTracked (p : SignalRecorder.Phase) : bool :=
  match p with
  | SignalRecorder.DRIVING | SignalRecorder.RECORDING_SIGNAL => true
  | _ => false
  end.

Section WithTrim.

(** [String.prototype.trim]. *)
Variable trim : string -> string.

(** [startRoute]; [timeString] is [new Date().toLocaleTimeString()]. *)
Definition startRoute (timeString : string) (st : SignalRecorder.State)
    : SignalRecorder.State :=
  let named :=
    if String.eqb (trim (SignalRecorder.routeName st)) ""
    then setRouteName ("Route " +:+ timeString) st
    else st in
  SignalRecorder.setUiPhase SignalRecorder.DRIVING named.

Definition step (s : Session) (ev : UiEvent) : Session :=
  if mounted s then
    let st := recorder s in
    match ev with
    | TypeName value =>
        match SignalRecorder.uiPhase st with
        | SignalRecorder.INIT_ROUTE => withRecorder (setRouteName value st) s
        | _ => s
        end
    | Cancel =>
        match SignalRecorder.uiPhase st with
        | SignalRecorder.INIT_ROUTE =>
            {| recorder := st; preview := preview s; handedOver := handedOver s;
               mounted := false |}
        | _ => s
        end
    | StartDriving timeString =>
        match SignalRecorder.uiPhase st with
        | SignalRecorder.INIT_ROUTE => withRecorder (startRoute timeString st) s
        | _ => s
        end
    | RecordSignalHere =>
        match SignalRecorder.uiPhase st with
        | SignalRecorder.DRIVING =>
            withRecorder (SignalRecorder.setUiPhase SignalRecorder.RECORDING_SIGNAL st) s
        | _ => s
        end
    | Recorder (SignalRecorder.TimerExpires now) =>
        withRecorder (SignalRecorder.step st (SignalRecorder.TimerExpires now)) s
    | Recorder gesture =>
        if overlayShown (SignalRecorder.uiPhase st)
        then withRecorder (SignalRecorder.step st gesture) s
        else s
    | PathInterval userLocation now =>
        if pathTracked (SignalRecorder.uiPhase st) then
          match samplePath userLocation now st with
          | (st', Some published) =>
              {| recorder := st'; preview := Some published;
                 handedOver := handedOver s; mounted := mounted s |}
          | (st', None) => withRecorder st' s
          end
        else s
    | Finish createdAt =>
        match SignalRecorder.uiPhase st with
        | SignalRecorder.INIT_ROUTE => s
        | _ =>
            let '(st', fullRoute) := SignalRecorder.finishRoute createdAt st in
            {| recorder := st'; preview := preview s;
               handedOver := Some fullRoute; mounted := false |}
        end
    end
  else s.

Definition run (evs : list UiEvent) (s : Session) : Session := fold_left step evs s.

End WithTrim.

(** The clock reading of a recorder event. *)
Definition eventTime (ev : SignalRecorder.Event) : number :=
  match ev with
  | SignalRecorder.Press _ now _ _ => now
  | SignalRecorder.Release now => now
  | SignalRecorder.TimerExpires now => now
  end.

(** The clock readings of a sequence of events increase strictly, from
    [t] on. *)
Fixpoint clockIncreases (t : number) (evs : list SignalRecorder.Event) : Prop :=
  match evs with
  | [] => True
  | ev :: rest => t < eventTime ev /\ clockIncreases (eventTime ev) rest
  end.

(** What holds of a session opened for the route id [rid]: the recorder
    keeps that id; nothing is recorded before the route is started; the
    route last given to [onRouteUpdated] shows only recorded data; and the
    route given to [saveRoute] is the recording, handed over once, on
    unmount. *)
Definition consistent (rid : string) (s : Session) : Prop :=
  let st := recorder s in
  SignalRecorder.routeId st = rid /\
  (SignalRecorder.uiPhase st = SignalRecorder.INIT_ROUTE ->
     SignalRecorder.recordedPath st = [] /\
     SignalRecorder.recordedSignals st = [] /\
     SignalRecorder.signalPhase st = SignalRecorder.WAITING_GREEN /\
     SignalRecorder.timers st = [] /\
     preview s = None /\
     handedOver s = None) /\
  (forall p, preview s = Some p ->
     Route.id p = rid /\
     Route.path p `prefix_of` SignalRecorder.recordedPath st /\
     Route.signals p `prefix_of` SignalRecorder.recordedSignals st) /\
  (forall r, handedOver s = Some r ->
     mounted s = false /\
     Route.id r = rid /\
     Route.name r = SignalRecorder.routeName st /\
     Route.path r = SignalRecorder.recordedPath st /\
     Route.signals r = SignalRecorder.recordedSignals st /\
     Route.startLocation r = head (SignalRecorder.recordedPath st) /\
     Route.endLocation r = last (SignalRecorder.recordedPath st)).

End RecorderSession.

(** ** App.tsx *)

Module App.

Local Open Scope Q_scope.

Inductive ViewMode := EXPLORE | NAVIGATE | CREATE_ROUTE.

(** The [useState] cells of [App]. *)
Record State := {
  mode : ViewMode;
  routes : list Route;
  userLocation : option Coordinate;
  activeRouteId : option string;   (* [undefined] is [None] *)
  tempRoute : option Route
}.

(** A string that may be [undefined], used as a condition: [undefined]
    and the empty string are falsy. *)
Definition truthy (s : option string) : bool :=
  match s with
  | Some s' => negb (String.eqb s' "")
  | None => false
  end.

(** The routes given to the map. *)
Definition displayRoutes (st : State) : list Route :=
  match mode st, tempRoute st with
  | CREATE_ROUTE, Some temp => [temp]
  | NAVIGATE, _ =>
      if truthy (activeRouteId st)
      then filter (fun r => Some (Route.id r) = activeRouteId st) (routes st)
      else routes st
  | _, _ => routes st
  end.

(** Which overlay component is rendered. *)
Definition explorerShown (st : State) : bool :=
  match mode st with EXPLORE => true | _ => false end.

Definition navigatorShown (st : State) : bool :=
  match mode st with NAVIGATE => truthy (activeRouteId st) | _ => false end.

Definition recorderShown (st : State) : bool :=
  match mode st with CREATE_ROUTE => true | _ => false end.

(** [App] with the persisted routes, and [storedRoutes], the list that
    [init] has read and that the [getCurrentPosition] callback closes
    over. *)
Record World := {
  app : State;
  storage : StorageService.Storage;
  storedRoutes : list Route
}.

(** The mount effect up to the first answer of the geolocation service:
    [init] reads the stored routes. *)
Definition mount (storage : StorageService.Storage) : World :=
  {| app := {| mode := EXPLORE;
               routes := StorageService.getRoutes storage;
               userLocation := None;
               activeRouteId := None;
               tempRoute := None |};
     storage := storage;
     storedRoutes := StorageService.getRoutes storage |}.

Definition handleSelectRoute (id : string) (st : State) : State :=
  {| mode := NAVIGATE;
     routes := routes st;
     userLocation := userLocation st;
     activeRouteId := Some id;
     tempRoute := tempRoute st |}.

Definition handleBackToExplorer (st : State) : State :=
  {| mode := EXPLORE;
     routes := routes st;
     userLocation := userLocation st;
     activeRouteId := None;
     tempRoute := tempRoute st |}.

(** [handleCreateComplete], given the persisted routes. *)
Definition handleCreateComplete (storage : StorageService.Storage) (st : State) : State :=
  {| mode := EXPLORE;
     routes := StorageService.getRoutes storage;
     userLocation := userLocation st;
     activeRouteId := activeRouteId st;
     tempRoute := None |}.

Definition setMode (m : ViewMode) (st : State) : State :=
  {| mode := m;
     routes := routes st;
     userLocation := userLocation st;
     activeRouteId := activeRouteId st;
     tempRoute := tempRoute st |}.

Definition setUserLocation (coords : Coordinate) (st : State) : State :=
  {| mode := mode st;
     routes := routes st;
     userLocation := Some coords;
     activeRouteId := activeRouteId st;
     tempRoute := tempRoute st |}.

Definition setTempRoute (r : option Route) (st : State) : State :=
  {| mode := mode st;
     routes := routes st;
     userLocation := userLocation st;
     activeRouteId := activeRouteId st;
     tempRoute := r |}.

Definition setRoutes (rs : list Route) (st : State) : State :=
  {| mode := mode st;
     routes := rs;
     userLocation := userLocation st;
     activeRouteId := activeRouteId st;
     tempRoute := tempRoute st |}.

(** [handleDeleteRoute]; [confirmed] is the answer of [confirm]. *)
Definition handleDeleteRoute (id : string) (confirmed : bool) (w : World) : World :=
  if confirmed then
    let storage' := StorageService.deleteRoute id (storage w) in
    let updated := StorageService.getRoutes storage' in
    {| app := setRoutes updated (app w);
       storage := storage';
       storedRoutes := storedRoutes w |}
  else w.

Inductive Event :=
| CurrentPosition (coords : Coordinate)   (* [getCurrentPosition] succeeds *)
| WatchPosition (coords : Coordinate)     (* [watchPosition] delivers a fix *)
| SelectRoute (id : string)               (* explorer *)
| DeleteRoute (id : string) (confirmed : bool)   (* explorer *)
| StartCreate                             (* explorer: "New Route" *)
| BackToExplorer                          (* navigator: [onBack] *)
| RouteUpdated (route : Route)            (* recorder: [onRouteUpdated] *)
| RecorderBack (saved : option Route).    (* recorder: [saveRoute] if any, then [onBack] *)

Section WithDistance.

Variable calculateDistance : Coordinate -> Coordinate -> number.

(** The success callback of [getCurrentPosition]: context-oriented
    auto-start, 100 m threshold.  A [TypeError] in [findNearestRoute]
    ends the callback after [setUserLocation]. *)
Definition positionCallback (coords : Coordinate) (storedRoutes : list Route)
    (st : State) : State :=
  let located := setUserLocation coords st in
  match RouteFinder.findNearestRoute calculateDistance coords storedRoutes (Some 100) with
  | Some (Some nearest) =>
      setMode NAVIGATE
        {| mode := mode located;
           routes := routes located;
           userLocation := userLocation located;
           activeRouteId := Some (Route.id nearest);
           tempRoute := tempRoute located |}
  | _ => located
  end.

Definition withApp (st : State) (w : World) : World :=
  {| app := st; storage := storage w; storedRoutes := storedRoutes w |}.

Definition step (w : World) (ev : Event) : World :=
  match ev with
  | CurrentPosition coords =>
      withApp (positionCallback coords (storedRoutes w) (app w)) w
  | WatchPosition coords => withApp (setUserLocation coords (app w)) w
  | SelectRoute id =>
      if explorerShown (app w) then withApp (handleSelectRoute id (app w)) w else w
  | DeleteRoute id confirmed =>
      if explorerShown (app w) then handleDeleteRoute id confirmed w else w
  | StartCreate =>
      if explorerShown (app w) then withApp (setMode CREATE_ROUTE (app w)) w else w
  | BackToExplorer =>
      if navigatorShown (app w) then withApp (handleBackToExplorer (app w)) w else w
  | RouteUpdated route =>
      if recorderShown (app w) then withApp (setTempRoute (Some route) (app w)) w else w
  | RecorderBack saved =>
      if recorderShown (app w) then
        let storage' :=
          match saved with
          | Some route => StorageService.saveRoute route (storage w)
          | None => storage w
          end in
        {| app := handleCreateComplete storage' (app w);
           storage := storage';
           storedRoutes := storedRoutes w |}
      else w
  end.

Definition run (evs : list Event) (w : World) : World := fold_left step evs w.

End WithDistance.

(** What holds of [App] between two events: the route list shown is the
    stored one, no two of its routes share an id, and a route is active
    exactly in [NAVIGATE] mode. *)
Definition coherent (w : World) : Prop :=
  routes (app w) = StorageService.getRoutes (storage w) /\
  NoDup (StorageService.ids (storage w)) /\
  (mode (app w) = NAVIGATE <-> activeRouteId (app w) <> None).

End App.

(** ** More sample data *)

Module Demo.

Local Open Scope Q_scope.

(** A distance that only looks at the difference of latitudes, in
    meters per degree. *)
Definition latitudeDistance (a b : Coordinate) : number :=
  Qabs (latitude a - latitude b) * 111000.

Definition at_ (lat : number) : Coordinate := {| latitude := lat; longitude := 139.76 |}.

Definition signalNear (id : string) (lat : number) : Signal :=
  {| Signal.id := id;
     Signal.name := "Signal #1";
     Signal.location := Some (at_ lat);
     Signal.cycle := Sample.cycle60;
     Signal.referenceTimestamp := 0;
     Signal.createdAt := 0 |}.

Definition signalNowhere (id : string) : Signal :=
  {| Signal.id := id;
     Signal.name := "Signal #1";
     Signal.location := None;
     Signal.cycle := Sample.cycle60;
     Signal.referenceTimestamp := 0;
     Signal.createdAt := 0 |}.

Definition routeWith (id : string) (signals : list Signal) : Route :=
  {| Route.id := id;
     Route.name := id;
     Route.startLocation := None;
     Route.endLocation := None;
     Route.path := [];
     Route.signals := signals;
     Route.createdAt := 0 |}.

(** A vehicle pulling away towards a signal that is GREEN until 30 s: the
    route is loaded, a first fix at 18.8 s, a second fix one second later,
    a tick of the interval at 20 s. *)
Definition pullingAway : list NavigatorComponent.Event :=
  [NavigatorComponent.RouteFetched (Some [routeWith "r1" [signalNear "s1" 35.68]]);
   NavigatorComponent.LocationChanged (35.678, 139.76) 18800;
   NavigatorComponent.LocationChanged (35.679, 139.76) 19800;
   NavigatorComponent.IntervalFires 20000].

(** A stand-in for the platform's [Math]: the values of
    [IEEE.nearestAtEightDegrees] at their arguments and [NaN] elsewhere;
    [atan2] with the rules of ECMAScript for [NaN] and for [+0] over a
    positive number. *)
Definition libm : IEEE.Math :=
  {| IEEE.sin := fun x =>
       (if x =? IEEE.eightDegrees then 0x1.1d06c968d9e19p-3
        else if x =? - IEEE.eightDegrees then -0x1.1d06c968d9e19p-3
        else if x =? IEEE.rightAngle then 1
        else if x =? - IEEE.rightAngle then -1
        else nan)%float;
     IEEE.cos := fun x =>
       (if x =? IEEE.eightDegrees then 0x1.fb046a930947ap-1
        else if x =? - IEEE.eightDegrees then 0x1.fb046a930947ap-1
        else nan)%float;
     IEEE.atan2 := fun y x =>
       (if is_nan x then nan
        else if is_nan y then nan
        else if (y =? 0) && (0 <? x) then y
        else nan)%float |}.

(** An ASCII stand-in for [String.prototype.trim]: drops leading
    spaces (enough to tell a blank name from a name). *)
Fixpoint dropSpaces (s : string) : string :=
  match s with
  | String c rest =>
      if Ascii.eqb c (Ascii.ascii_of_nat 32) then dropSpaces rest else s
  | EmptyString => s
  end.

End Demo.

(** * Properties *)

(** ** Arithmetic of the number model *)

Section NumberFacts.

Local Open Scope Q_scope.

Lemma lt_true (a b : number) : JS.lt a b = true <-> a < b.
Proof.
  unfold JS.lt. destruct (Qlt_le_dec a b) as [H | H]; split; intros; try easy.
  exfalso. apply (Qlt_not_le _ _ H0 H).
Qed.

Lemma lt_false (a b : number) : JS.lt a b = false <-> b <= a.
Proof.
  unfold JS.lt. destruct (Qlt_le_dec a b) as [H | H]; split; intros; try easy.
  exfalso. apply (Qlt_not_le _ _ H H0).
Qed.

Lemma lt_comp (a a' b b' : number) : a == a' -> b == b' -> JS.lt a b = JS.lt a' b'.
Proof.
  intros Ha Hb. destruct (JS.lt a' b') eqn:E.
  - apply lt_true. apply lt_true in E. now rewrite Ha, Hb.
  - apply lt_false. apply lt_false in E. now rewrite Ha, Hb.
Qed.

(** Truncation is the floor on non-negative rationals and the ceiling on
    non-positive ones. *)
Lemma trunc_floor (q : Q) : 0 <= q -> JS.trunc q = Qfloor q.
Proof.
  destruct q as [n d]. unfold Qle, JS.trunc, Qfloor. simpl. intros H.
  apply Z.quot_div_nonneg; lia.
Qed.

Lemma trunc_ceiling (q : Q) : q <= 0 -> JS.trunc q = Qceiling q.
Proof.
  destruct q as [n d]. unfold Qle, JS.trunc, Qceiling, Qfloor. simpl. intros H.
  replace n with (- (- n))%Z at 1 by lia.
  rewrite Z.quot_opp_l by lia. f_equal.
  apply Z.quot_div_nonneg; lia.
Qed.

Lemma trunc_comp (p q : Q) : p == q -> JS.trunc p = JS.trunc q.
Proof.
  intros H. destruct (Qlt_le_dec p 0) as [Hneg | Hpos].
  - rewrite !trunc_ceiling.
    + now rewrite H.
    + rewrite <- H. now apply Qlt_le_weak.
    + now apply Qlt_le_weak.
  - rewrite !trunc_floor.
    + now rewrite H.
    + now rewrite <- H.
    + exact Hpos.
Qed.

Lemma rem_comp (a a' b b' : number) : a == a' -> b == b' -> JS.rem a b == JS.rem a' b'.
Proof.
  intros Ha Hb. unfold JS.rem.
  rewrite (trunc_comp (a / b) (a' / b')) by (now rewrite Ha, Hb).
  now rewrite Ha, Hb.
Qed.

(** On a non-negative dividend [%] is the mathematical modulo ... *)
Lemma rem_wrap (a b : number) : 0 <= a -> 0 < b -> JS.rem a b = Spec.wrap a b.
Proof.
  intros Ha Hb. unfold JS.rem, Spec.wrap. rewrite trunc_floor; [reflexivity |].
  apply Qle_shift_div_l; [exact Hb |]. now rewrite Qmult_0_l.
Qed.

(** ... which lands in [[0, b)]. *)
Lemma wrap_range (a b : number) : 0 < b -> 0 <= Spec.wrap a b /\ Spec.wrap a b < b.
Proof.
  intros Hb. unfold Spec.wrap.
  assert (Hne : ~ b == 0) by (intros E; rewrite E in Hb; discriminate).
  assert (Ha : a == b * (a / b)) by (field; exact Hne).
  pose proof (Qfloor_le (a / b)) as Hlo.
  pose proof (Qlt_floor (a / b)) as Hhi.
  rewrite inject_Z_plus in Hhi.
  set (f := inject_Z (Qfloor (a / b))) in *. clearbody f.
  split.
  - apply (Qmult_le_l _ _ b Hb) in Hlo. rewrite <- Ha in Hlo. lra.
  - apply (Qmult_lt_l _ _ b Hb) in Hhi. rewrite <- Ha in Hhi.
    assert (E : b * (f + inject_Z 1) == b * f + b) by (unfold inject_Z; ring).
    rewrite E in Hhi. lra.
Qed.

Lemma rem_range (a b : number) : 0 <= a -> 0 < b -> 0 <= JS.rem a b /\ JS.rem a b < b.
Proof. intros Ha Hb. rewrite rem_wrap by assumption. now apply wrap_range. Qed.

(** On a non-positive dividend [%] stays non-positive: it never wraps a
    negative elapsed time into the cycle. *)
Lemma rem_nonpos (a b : number) : a <= 0 -> 0 < b -> JS.rem a b <= 0.
Proof.
  intros Ha Hb. unfold JS.rem.
  assert (Hne : ~ b == 0) by (intros E; rewrite E in Hb; discriminate).
  assert (Hq : a / b <= 0).
  { apply Qle_shift_div_r; [exact Hb |]. now rewrite Qmult_0_l. }
  rewrite trunc_ceiling by exact Hq.
  pose proof (Qle_ceiling (a / b)) as Hc.
  set (c := inject_Z (Qceiling (a / b))) in *. clearbody c.
  apply (Qmult_le_l _ _ b Hb) in Hc.
  assert (E : b * (a / b) == a) by (field; exact Hne).
  rewrite E in Hc. lra.
Qed.

End NumberFacts.

(** ** The phase computation of the navigator *)

Section PhaseFacts.

Local Open Scope Q_scope.

(** The three branches of the source are the three rules of the
    specification, at every position in the cycle. *)
Lemma phaseAt_rule (c : SignalCycle) (e : number) :
  Navigator.phaseAt c e = Spec.phaseRule c e.
Proof. reflexivity. Qed.

Lemma phaseAt_comp (c : SignalCycle) (e e' : number) :
  e == e' -> Spec.samePhase (Navigator.phaseAt c e) (Navigator.phaseAt c e').
Proof.
  intros He. unfold Navigator.phaseAt, Spec.samePhase.
  rewrite (lt_comp e e' _ _ He (Qeq_refl _)).
  rewrite (lt_comp e e' (SignalCycle.greenDuration c + SignalCycle.yellowDuration c) _
             He (Qeq_refl _)).
  destruct (JS.lt e' _); [| destruct (JS.lt e' _)]; simpl;
    (split; [reflexivity | split; [now rewrite He | reflexivity]]).
Qed.

(** Inside the cycle the time to the next change is in
    [(0, totalDuration]]. *)
Lemma phaseAt_bounds (c : SignalCycle) (e : number) :
  validCycle c -> 0 <= e -> e < SignalCycle.totalDuration c ->
  0 < snd (fst (Navigator.phaseAt c e)) /\
  snd (fst (Navigator.phaseAt c e)) <= SignalCycle.totalDuration c.
Proof.
  intros (Hg & Hy & Hr & Ht) Hlo Hhi. unfold Navigator.phaseAt.
  destruct (JS.lt e (SignalCycle.greenDuration c)) eqn:E1.
  - apply lt_true in E1. simpl. lra.
  - apply lt_false in E1.
    destruct (JS.lt e _) eqn:E2; simpl.
    + apply lt_true in E2. lra.
    + apply lt_false in E2. lra.
Qed.

(** From the reference timestamp onwards the remainder wraps the elapsed
    time into the cycle. *)
Lemma cyclePos_range (signal : Signal) (now : number) :
  0 < SignalCycle.totalDuration (Signal.cycle signal) ->
  Signal.referenceTimestamp signal <= now ->
  0 <= Navigator.cyclePos signal now /\
  Navigator.cyclePos signal now < SignalCycle.totalDuration (Signal.cycle signal).
Proof.
  intros Ht Hnow. unfold Navigator.cyclePos. apply rem_range; [| exact Ht].
  unfold Navigator.cycleTime. apply Qle_shift_div_l; [reflexivity |]. lra.
Qed.

Lemma validCycle_total_pos (c : SignalCycle) :
  validCycle c -> 0 < SignalCycle.totalDuration c.
Proof. intros (Hg & Hy & Hr & Ht). lra. Qed.

(** From the reference timestamp onwards the source computes what the
    specification's predictor computes, and the time to the next change
    is in [(0, totalDuration]]. *)
Lemma phase_agrees_from_reference (signal : Signal) (now : number) :
  validCycle (Signal.cycle signal) ->
  Signal.referenceTimestamp signal <= now ->
  Navigator.phaseAt (Signal.cycle signal) (Navigator.cyclePos signal now)
    = Spec.PhasePredictor signal now.
Proof.
  intros Hv Hnow. unfold Spec.PhasePredictor, Navigator.cyclePos, Navigator.cycleTime.
  rewrite rem_wrap; [reflexivity | | now apply validCycle_total_pos].
  apply Qle_shift_div_l; [reflexivity |]. lra.
Qed.

Lemma phase_bounds_from_reference (signal : Signal) (now : number) :
  validCycle (Signal.cycle signal) ->
  Signal.referenceTimestamp signal <= now ->
  let r := Navigator.phaseAt (Signal.cycle signal) (Navigator.cyclePos signal now) in
  0 < snd (fst r) /\ snd (fst r) <= SignalCycle.totalDuration (Signal.cycle signal).
Proof.
  intros Hv Hnow r.
  destruct (cyclePos_range signal now (validCycle_total_pos _ Hv) Hnow) as [Hlo Hhi].
  now apply phaseAt_bounds.
Qed.

(** Up to the reference timestamp the source answers GREEN whatever the
    cycle, with a time to change of at least the whole green duration. *)
Lemma phase_before_reference_is_green (signal : Signal) (now : number) :
  validCycle (Signal.cycle signal) ->
  now <= Signal.referenceTimestamp signal ->
  let r := Navigator.phaseAt (Signal.cycle signal) (Navigator.cyclePos signal now) in
  fst (fst r) = GREEN /\
  SignalCycle.greenDuration (Signal.cycle signal) <= snd (fst r) /\
  snd r = YELLOW.
Proof.
  intros Hv Hnow r.
  assert (Hpos : Navigator.cyclePos signal now <= 0).
  { unfold Navigator.cyclePos. apply rem_nonpos; [| now apply validCycle_total_pos].
    unfold Navigator.cycleTime. apply Qle_shift_div_r; [reflexivity |]. lra. }
  destruct Hv as (Hg & _). subst r. unfold Navigator.phaseAt.
  assert (Hlt : JS.lt (Navigator.cyclePos signal now)
                  (SignalCycle.greenDuration (Signal.cycle signal)) = true)
    by (apply lt_true; lra).
  rewrite Hlt. simpl. repeat split. lra.
Qed.

(** The examples of the specification: the cycle 30/3/27 anchored at any
    [T], evaluated [k] milliseconds later. *)
Lemma cyclePos_after (T k : number) :
  Navigator.cyclePos (Sample.signalAt T) (T + k) == JS.rem (k / 1000) 60.
Proof.
  unfold Navigator.cyclePos, Navigator.cycleTime. simpl.
  apply rem_comp; [| reflexivity]. field.
Qed.

Lemma phase_examples (T : number) :
  Spec.samePhase (Navigator.phaseAt Sample.cycle60
               (Navigator.cyclePos (Sample.signalAt T) (T + 0))) (GREEN, 30, YELLOW) /\
  Spec.samePhase (Navigator.phaseAt Sample.cycle60
               (Navigator.cyclePos (Sample.signalAt T) (T + 30000))) (YELLOW, 3, RED) /\
  Spec.samePhase (Navigator.phaseAt Sample.cycle60
               (Navigator.cyclePos (Sample.signalAt T) (T + 33000))) (RED, 27, GREEN) /\
  Spec.samePhase (Navigator.phaseAt Sample.cycle60
               (Navigator.cyclePos (Sample.signalAt T) (T + 60000))) (GREEN, 30, YELLOW).
Proof.
  repeat split;
    match goal with
    | |- context [Navigator.cyclePos _ (T + ?k)] =>
        pose proof (phaseAt_comp Sample.cycle60 _ _ (cyclePos_after T k)) as (H1 & H2 & H3)
    end;
    first [ rewrite H1 | rewrite H2 | rewrite H3 ]; reflexivity.
Qed.

End PhaseFacts.

(** ** One tick of the navigator *)

Section TickFacts.

Local Open Scope Q_scope.

Variable calculateDistance : Coordinate -> Coordinate -> number.

(** Once a signal has been visited, [minDist] is finite. *)
Lemma nearestLoop_keeps_finite userLoc signals nearest d nearest' minDist' :
  Navigator.nearestLoop calculateDistance userLoc signals nearest (Some d)
    = Some (nearest', minDist') ->
  exists d', minDist' = Some d'.
Proof.
  revert nearest d. induction signals as [| sig rest IH]; intros nearest d; simpl.
  - intros [= <- <-]. now exists d.
  - destruct (Signal.location sig) as [loc |]; [| discriminate].
    destruct (JS.lt _ d); apply IH.
Qed.

Lemma nearestLoop_finite userLoc signals nearest nearest' minDist' :
  signals <> [] ->
  Navigator.nearestLoop calculateDistance userLoc signals nearest None
    = Some (nearest', minDist') ->
  exists d', minDist' = Some d'.
Proof.
  destruct signals as [| sig rest]; [congruence |]. intros _. simpl.
  destruct (Signal.location sig) as [loc |]; [| discriminate].
  apply nearestLoop_keeps_finite.
Qed.

(** The loop only dies on a signal without location. *)
Lemma nearestLoop_total userLoc signals nearest minDist :
  Forall (fun sig => Signal.location sig <> None) signals ->
  exists r, Navigator.nearestLoop calculateDistance userLoc signals nearest minDist = Some r.
Proof.
  intros H. revert nearest minDist.
  induction H as [| sig rest Hloc _ IH]; intros nearest minDist; simpl.
  - eauto.
  - destruct (Signal.location sig) as [loc |]; [| congruence].
    destruct (JS.ltInf _ minDist); apply IH.
Qed.

(** The signal the loop settles on is the initial one or one of the list. *)
Lemma nearestLoop_member userLoc signals nearest minDist nearest' minDist' :
  Navigator.nearestLoop calculateDistance userLoc signals nearest minDist
    = Some (nearest', minDist') ->
  nearest' = nearest \/ In nearest' signals.
Proof.
  revert nearest minDist. induction signals as [| sig rest IH]; intros nearest minDist; simpl.
  - intros [= <- <-]. now left.
  - destruct (Signal.location sig) as [loc |]; [| discriminate].
    destruct (JS.ltInf _ minDist); intros H; apply IH in H;
      destruct H as [-> | H]; simpl; auto.
Qed.

(** The distance the loop settles on is a lower bound of the distances to
    all the signals visited (and of the initial [minDist]) ... *)
Lemma nearestLoop_lower_bound userLoc signals nearest minDist nearest' d :
  Navigator.nearestLoop calculateDistance userLoc signals nearest minDist
    = Some (nearest', Some d) ->
  (forall m, minDist = Some m -> d <= m) /\
  (forall sig loc, In sig signals -> Signal.location sig = Some loc ->
     d <= calculateDistance userLoc loc).
Proof.
  revert nearest minDist. induction signals as [| sig rest IH]; intros nearest minDist; simpl.
  - intros [= <- ->]. split; [| contradiction].
    intros m [= <-]. apply Qle_refl.
  - destruct (Signal.location sig) as [loc0 |] eqn:Hloc; [| discriminate].
    destruct (JS.ltInf _ minDist) eqn:Hlt; intros H; apply IH in H; destruct H as [Hm Hrest].
    + pose proof (Hm _ eq_refl) as Hd. split.
      * intros m ->. simpl in Hlt. apply lt_true in Hlt. lra.
      * intros s loc [<- | Hin] Hs; [| now apply (Hrest s)].
        rewrite Hloc in Hs. now injection Hs as <-.
    + destruct minDist as [m |]; [| discriminate Hlt]. simpl in Hlt. apply lt_false in Hlt.
      pose proof (Hm _ eq_refl) as Hd. split.
      * now intros m' [= <-].
      * intros s loc [<- | Hin] Hs; [| now apply (Hrest s)].
        rewrite Hloc in Hs. injection Hs as <-. lra.
Qed.

(** ... and, starting from [Infinity], it is the distance to the signal
    the loop settles on. *)
Lemma nearestLoop_attained userLoc signals nearest minDist nearest' d :
  Navigator.nearestLoop calculateDistance userLoc signals nearest minDist
    = Some (nearest', Some d) ->
  (minDist = Some d /\ nearest' = nearest) \/
  (exists loc, In nearest' signals /\ Signal.location nearest' = Some loc /\
               d = calculateDistance userLoc loc).
Proof.
  revert nearest minDist. induction signals as [| sig rest IH]; intros nearest minDist; simpl.
  - intros [= <- ->]. now left.
  - destruct (Signal.location sig) as [loc0 |] eqn:Hloc; [| discriminate].
    destruct (JS.ltInf _ minDist); intros H; apply IH in H;
      destruct H as [[Hd Hn] | (loc & Hin & Hl & Hd)].
    + right. injection Hd as <-. subst nearest'. exists loc0. simpl. auto.
    + right. exists loc. simpl. auto.
    + now left.
    + right. exists loc. simpl. auto.
Qed.

(** The distance published by a tick is the distance to the nearest
    signal of the route. *)
Lemma tick_distance_is_minimum route lastPosition navState now prev next :
  Navigator.updateNavigationLogic calculateDistance route lastPosition navState now prev
    = Navigator.SetNavState next ->
  exists r last,
    route = Some r /\ lastPosition = Some last /\
    let userLoc := {| latitude := Navigator.lat last; longitude := Navigator.lng last |} in
    (forall sig loc, In sig (Route.signals r) -> Signal.location sig = Some loc ->
       distanceToSignal next <= calculateDistance userLoc loc) /\
    (exists sig loc, In sig (Route.signals r) /\ Signal.location sig = Some loc /\
       distanceToSignal next = calculateDistance userLoc loc).
Proof.
  unfold Navigator.updateNavigationLogic.
  destruct route as [r |]; [| discriminate].
  destruct lastPosition as [last |]; [| discriminate].
  destruct (Route.signals r) as [| first rest] eqn:Hsigs; [discriminate |].
  destruct (Navigator.nearestLoop _ _ _ _ _) as [[nearestSignal [minDist |]] |] eqn:Hloop;
    [| discriminate | discriminate].
  destruct (Navigator.phaseAt _ _) as [[cur ttc] nxt].
  destruct (Navigator.recommend _ _ _ _) as [action target].
  intros [= <-]. exists r, last. simpl. rewrite Hsigs.
  split; [reflexivity |]. split; [reflexivity |]. split.
  - apply (nearestLoop_lower_bound _ _ _ _ _ _ Hloop).
  - destruct (nearestLoop_attained _ _ _ _ _ _ Hloop) as [[Hd _] | (loc & Hin & Hl & Hd)];
      [discriminate Hd |].
    exists nearestSignal, loc. auto.
Qed.

(** What a tick that reaches [setNavState] has computed. *)
Lemma tick_inversion route lastPosition navState now prev next :
  Navigator.updateNavigationLogic calculateDistance route lastPosition navState now prev
    = Navigator.SetNavState next ->
  exists r nearestSignal,
    route = Some r /\ In nearestSignal (Route.signals r) /\
    let dist := distanceToSignal next in
    let speedMps := currentSpeedKmh navState / 3.6 in
    etaSeconds next = (if JS.lt 0 speedMps then dist / speedMps else 999) /\
    (currentPhase next, timeToPhaseChange next, nextPhase next)
      = Navigator.phaseAt (Signal.cycle nearestSignal) (Navigator.cyclePos nearestSignal now) /\
    (recommendedAction next, targetSpeedKmh next)
      = Navigator.recommend dist (etaSeconds next) (currentPhase next) (timeToPhaseChange next) /\
    currentSpeedKmh next = currentSpeedKmh prev /\
    targetSignalId next = targetSignalId prev.
Proof.
  unfold Navigator.updateNavigationLogic.
  destruct route as [r |]; [| discriminate].
  destruct lastPosition as [last |]; [| discriminate].
  destruct (Route.signals r) as [| first rest] eqn:Hsigs; [discriminate |].
  destruct (Navigator.nearestLoop _ _ _ _ _) as [[nearestSignal [minDist |]] |] eqn:Hloop;
    [| discriminate | discriminate].
  destruct (Navigator.phaseAt _ _) as [[cur ttc] nxt] eqn:Hphase.
  destruct (Navigator.recommend _ _ _ _) as [action target] eqn:Hrec.
  intros [= <-]. exists r, nearestSignal. simpl.
  split; [reflexivity |]. split.
  - rewrite Hsigs. apply nearestLoop_member in Hloop. destruct Hloop as [-> | H]; [now left | exact H].
  - rewrite Hrec, Hphase. repeat split.
Qed.

(** A tick does reach [setNavState] as soon as the route is loaded, has a
    signal, every signal has a location and a position fix is known. *)
Lemma tick_progress r last navState now prev :
  Route.signals r <> [] ->
  Forall (fun sig => Signal.location sig <> None) (Route.signals r) ->
  exists next,
    Navigator.updateNavigationLogic calculateDistance (Some r) (Some last) navState now prev
      = Navigator.SetNavState next.
Proof.
  intros Hne Hloc. unfold Navigator.updateNavigationLogic.
  destruct (Route.signals r) as [| first rest] eqn:Hsigs; [congruence |].
  destruct (nearestLoop_total
              {| latitude := Navigator.lat last; longitude := Navigator.lng last |}
              (first :: rest) first None Hloc) as [[nearestSignal minDist] Hloop].
  rewrite Hloop.
  destruct (nearestLoop_finite _ _ _ _ _ Hne Hloop) as [d ->].
  destruct (Navigator.phaseAt _ _) as [[cur ttc] nxt].
  destruct (Navigator.recommend _ _ _ _) as [action target].
  eauto.
Qed.

(** The whole of a tick, from its inputs: with a loaded route whose
    signals are located and a position fix, the tick calls [setNavState];
    the state it publishes is computed from the distance between the fix
    and a nearest signal of the route, the speed of the [navState] the
    callback has closed over, and the phase of that signal at the time of
    the tick. *)
Lemma tick_result r last navState now prev :
  Route.signals r <> [] ->
  Forall (fun sig => Signal.location sig <> None) (Route.signals r) ->
  let userLoc := {| latitude := Navigator.lat last; longitude := Navigator.lng last |} in
  exists nearestSignal loc,
    In nearestSignal (Route.signals r) /\
    Signal.location nearestSignal = Some loc /\
    (forall sig loc', In sig (Route.signals r) -> Signal.location sig = Some loc' ->
       calculateDistance userLoc loc <= calculateDistance userLoc loc') /\
    let dist := calculateDistance userLoc loc in
    let speedMps := currentSpeedKmh navState / 3.6 in
    let eta := if JS.lt 0 speedMps then dist / speedMps else 999 in
    let phase :=
      Navigator.phaseAt (Signal.cycle nearestSignal) (Navigator.cyclePos nearestSignal now) in
    let advice := Navigator.recommend dist eta (fst (fst phase)) (snd (fst phase)) in
    Navigator.updateNavigationLogic calculateDistance (Some r) (Some last) navState now prev
    = Navigator.SetNavState
        {| currentSpeedKmh := currentSpeedKmh prev;
           distanceToSignal := dist;
           targetSignalId := targetSignalId prev;
           etaSeconds := eta;
           recommendedAction := fst advice;
           targetSpeedKmh := snd advice;
           timeToPhaseChange := snd (fst phase);
           nextPhase := snd phase;
           currentPhase := fst (fst phase) |}.
Proof.
  intros Hne Hloc userLoc. unfold Navigator.updateNavigationLogic. fold userLoc.
  destruct (Route.signals r) as [| first rest] eqn:Hsigs; [congruence |].
  destruct (nearestLoop_total userLoc (first :: rest) first None Hloc)
    as [[nearestSignal minDist] Hloop].
  rewrite Hloop.
  destruct (nearestLoop_finite _ _ _ _ _ Hne Hloop) as [d ->].
  destruct (nearestLoop_attained _ _ _ _ _ _ Hloop) as [[Hd _] | (loc & Hin & Hl & Hd)];
    [discriminate Hd |].
  exists nearestSignal, loc. split; [exact Hin |]. split; [exact Hl |]. split.
  - rewrite <- Hd. apply (nearestLoop_lower_bound _ _ _ _ _ _ Hloop).
  - cbv zeta. rewrite <- Hd.
    destruct (Navigator.phaseAt _ _) as [[cur ttc] nxt]. cbn [fst snd].
    destruct (Navigator.recommend _ _ _ _) as [action target]. reflexivity.
Qed.

End TickFacts.

(** ** The claims about the navigator *)

Section NavigatorClaims.

Local Open Scope Q_scope.

(** C1 (the source departs from the claim).  The claim: for a valid cycle
    and every time [now], also before the reference timestamp, the tick
    wraps the elapsed time into [[0, totalDuration)] and the time to the
    phase change is in [(0, totalDuration]].  The source wraps with [%],
    whose result has the sign of the dividend.  For the valid cycle
    30/3/27 anchored at 1700000100000 ms and [now = 1700000050000] ms,
    50 s earlier, the position in the cycle is -50, outside [[0, 60)],
    and the tick publishes GREEN with a time to change of 80 s, more than
    the total of 60 s.  (From the reference timestamp onwards the claim
    holds, [phase_bounds_from_reference]; before it the source always
    answers GREEN, [phase_before_reference_is_green].) *)
Theorem phase_before_reference_leaves_cycle :
  validCycle Sample.cycle60 /\
  Navigator.cyclePos (Sample.signalAt 1700000100000) 1700000050000 == -50 /\
  ~ 0 <= Navigator.cyclePos (Sample.signalAt 1700000100000) 1700000050000 /\
  exists next,
    Sample.tick 100 1700000100000 1700000050000 0 = Navigator.SetNavState next /\
    currentPhase next = GREEN /\
    timeToPhaseChange next == 80 /\
    ~ timeToPhaseChange next <= SignalCycle.totalDuration Sample.cycle60.
Proof.
  split; [repeat split |]. split; [reflexivity |]. split.
  - apply Qlt_not_le. reflexivity.
  - eexists. split; [vm_compute; reflexivity |]. split; [reflexivity |].
    split; [reflexivity |]. apply Qlt_not_le. reflexivity.
Qed.

(** C3 (the source departs from the claim).  The claim: with [e] the
    elapsed seconds since the reference timestamp wrapped into
    [[0, totalDuration)], the phase is GREEN/YELLOW/RED according to the
    three rules, for every time [now].  The three rules are the source's
    branches ([phaseAt_rule]) and the four examples hold
    ([phase_examples]), but before the reference timestamp the source's
    [%] does not yield [e]: for the cycle 30/3/27 anchored at
    1700000100000 ms and [now = 1700000090000] ms, 10 s earlier, the
    wrapped elapsed time is 50, for which the rules give RED, 10 s, next
    GREEN, while the tick publishes GREEN, 40 s, next YELLOW. *)
Theorem phase_before_reference_breaks_rule :
  validCycle Sample.cycle60 /\
  Spec.wrap (Navigator.cycleTime (Sample.signalAt 1700000100000) 1700000090000) 60 == 50 /\
  Spec.samePhase (Spec.PhasePredictor (Sample.signalAt 1700000100000) 1700000090000) (RED, 10, GREEN) /\
  exists next,
    Sample.tick 100 1700000100000 1700000090000 0 = Navigator.SetNavState next /\
    currentPhase next = GREEN /\
    timeToPhaseChange next == 40 /\
    nextPhase next = YELLOW.
Proof.
  split; [repeat split |]. split; [reflexivity |]. split; [repeat split |].
  eexists. split; [vm_compute; reflexivity |]. repeat split.
Qed.





(** The GREEN rule of a tick, from its inputs: the ETA is the distance to
    a nearest signal divided by the speed in the [navState] the callback
    has closed over, in m/s, and 999 when that speed is not positive; at
    20 m or more from a GREEN signal the action is MAINTAIN when the ETA
    is below the time to change and DECELERATE otherwise. *)
Lemma tick_green_rule calculateDistance (r : Route) (last : Navigator.Position)
    (navState prev : NavigationState) (now : number) :
  Route.signals r <> [] ->
  Forall (fun sig => Signal.location sig <> None) (Route.signals r) ->
  let userLoc := {| latitude := Navigator.lat last; longitude := Navigator.lng last |} in
  exists next nearestSignal loc,
    Navigator.updateNavigationLogic calculateDistance (Some r) (Some last) navState now prev
      = Navigator.SetNavState next /\
    In nearestSignal (Route.signals r) /\
    Signal.location nearestSignal = Some loc /\
    let distance := calculateDistance userLoc loc in
    let speed := currentSpeedKmh navState / 3.6 in
    let phase :=
      Navigator.phaseAt (Signal.cycle nearestSignal) (Navigator.cyclePos nearestSignal now) in
    distanceToSignal next = distance /\
    etaSeconds next = Spec.eta 999 distance speed /\
    (recommendedAction next, targetSpeedKmh next)
      = Navigator.recommend distance (Spec.eta 999 distance speed)
          (fst (fst phase)) (snd (fst phase)) /\
    (20 <= distance -> fst (fst phase) = GREEN ->
       recommendedAction next
       = fst (Spec.SpeedAdvisor 999 distance speed GREEN (snd (fst phase)))).
Proof.
  intros Hne Hloc userLoc.
  destruct (tick_result calculateDistance r last navState now prev Hne Hloc)
    as (nearestSignal & loc & Hin & Hl & Hmin & Htick).
  fold userLoc in Hmin, Htick. cbv zeta in Htick.
  eexists. exists nearestSignal, loc.
  split; [exact Htick |]. split; [exact Hin |]. split; [exact Hl |].
  cbv zeta. cbn [distanceToSignal etaSeconds recommendedAction targetSpeedKmh].
  unfold Spec.eta.
  split; [reflexivity |]. split; [reflexivity |].
  split; [now destruct (Navigator.recommend _ _ _ _) |].
  intros Hfar Hgreen. rewrite Hgreen.
  unfold Navigator.recommend, Spec.SpeedAdvisor, Spec.eta.
  apply lt_false in Hfar. rewrite Hfar. cbv zeta.
  now destruct (JS.lt _ (snd _)).
Qed.

(** C7 (the source departs from the claim).  The claim: at 20 m or more
    from the nearest signal the ETA is the distance divided by the
    smoothed speed when that speed is positive, and when the phase is
    GREEN the action is MAINTAIN if the ETA is below the time to change.
    A tick applies these rules ([tick_green_rule]), but to the speed in
    the [navState] that the interval callback has closed over, which is
    the speed before the last position fix.  In the run
    [Demo.pullingAway], with 100 m between the two fixes and from the
    second fix to the signal, the window of speed samples is 0, 100 when
    the tick runs: the smoothed speed is 50 m/s and is displayed as
    180 km/h; the signal is 100 m away and GREEN for 10 s more.  The ETA of the claim is
    100 / 50 = 2 s, below 10 s, so the claim says MAINTAIN; the tick works
    with the speed 0 of the render in which the fix arrived, publishes
    the sentinel 999 as ETA and recommends DECELERATE. *)
Theorem advice_ignores_last_fix :
  let c := NavigatorComponent.run (Sample.constantDistance 100) Demo.pullingAway
             (NavigatorComponent.mount "r1") in
  let st := NavigatorComponent.navState c in
  let speed := Spec.smoothedSpeed (Navigator.speedHistory (NavigatorComponent.refs c)) in
  Forall2 Qeq (Navigator.speedHistory (NavigatorComponent.refs c)) [0; 100] /\
  speed == 50 /\
  LocationService.calculateSmoothedSpeed (Navigator.speedHistory (NavigatorComponent.refs c))
    == speed /\
  currentSpeedKmh st == 180 /\
  distanceToSignal st == 100 /\
  currentPhase st = GREEN /\
  timeToPhaseChange st == 10 /\
  Spec.eta 999 (distanceToSignal st) speed == 2 /\
  fst (Spec.SpeedAdvisor 999 (distanceToSignal st) speed (currentPhase st)
         (timeToPhaseChange st)) = MAINTAIN /\
  currentSpeedKmh (NavigatorComponent.captured c) == 0 /\
  etaSeconds st == 999 /\
  recommendedAction st = DECELERATE.
Proof.
  vm_compute. split; [repeat constructor |]. repeat split.
Qed.

End NavigatorClaims.

(** ** The claims about the cycle recorder *)

Section RecorderClaims.

Local Open Scope Q_scope.

Import SignalRecorder.

(** The signal that a press in RED constructs. *)
Lemma press_in_red userLocation now uuid createdAt st :
  signalPhase st = RED ->
  let st' := handleSignalPress userLocation now uuid createdAt st in
  exists s,
    recordedSignals st' = recordedSignals st ++ [s] /\
    SignalCycle.greenDuration (Signal.cycle s)
      = (greenEnd (cycleData st) - greenStart (cycleData st)) / 1000 /\
    SignalCycle.redDuration (Signal.cycle s) = (now - redStart (cycleData st)) / 1000 /\
    SignalCycle.yellowDuration (Signal.cycle s) = yellowDuration st /\
    SignalCycle.totalDuration (Signal.cycle s)
      = SignalCycle.greenDuration (Signal.cycle s)
        + SignalCycle.yellowDuration (Signal.cycle s)
        + SignalCycle.redDuration (Signal.cycle s) /\
    Signal.referenceTimestamp s = greenStart (cycleData st) /\
    Signal.location s = userLocation /\
    Signal.id s = uuid /\
    signalPhase st' = WAITING_GREEN /\
    uiPhase st' = DRIVING.
Proof.
  intros Hred. unfold handleSignalPress. rewrite Hred. simpl.
  eexists. split; [reflexivity |]. simpl. repeat split.
Qed.

(** No handler touches the signals already recorded, and what a handler
    appends is a signal built by a press in RED. *)
Lemma step_recordedSignals st ev :
  recordedSignals (step st ev) = recordedSignals st \/
  exists s,
    recordedSignals (step st ev) = recordedSignals st ++ [s] /\
    SignalCycle.totalDuration (Signal.cycle s)
      = SignalCycle.greenDuration (Signal.cycle s)
        + SignalCycle.yellowDuration (Signal.cycle s)
        + SignalCycle.redDuration (Signal.cycle s).
Proof.
  destruct ev as [loc now uuid createdAt | now | now]; simpl.
  - destruct (signalPhase st) eqn:E.
    + left. unfold handleSignalPress. now rewrite E.
    + left. unfold handleSignalPress. now rewrite E.
    + left. unfold handleSignalPress. now rewrite E.
    + right. destruct (press_in_red loc now uuid createdAt st E)
        as (s & Hs & _ & _ & _ & Ht & _).
      exists s. split; assumption.
  - left. unfold handleSignalRelease. now destruct (signalPhase st).
  - left. now destruct (timers st).
Qed.

Lemma run_totals evs st :
  Forall (fun s => SignalCycle.totalDuration (Signal.cycle s)
                   == SignalCycle.greenDuration (Signal.cycle s)
                      + SignalCycle.yellowDuration (Signal.cycle s)
                      + SignalCycle.redDuration (Signal.cycle s))
         (recordedSignals st) ->
  Forall (fun s => SignalCycle.totalDuration (Signal.cycle s)
                   == SignalCycle.greenDuration (Signal.cycle s)
                      + SignalCycle.yellowDuration (Signal.cycle s)
                      + SignalCycle.redDuration (Signal.cycle s))
         (recordedSignals (run evs st)).
Proof.
  revert st. induction evs as [| ev evs IH]; intros st Hst; simpl; [exact Hst |].
  apply IH. destruct (step_recordedSignals st ev) as [-> | (s & -> & Hs)]; [exact Hst |].
  apply Forall_app. split; [exact Hst |].
  constructor; [now rewrite Hs | constructor].
Qed.

(** C2 as stated fails: nothing is rejected.  A press and a release that
    read the same clock value, then the yellow timer and a second press,
    make the recorder append a signal whose green duration is 0, and
    [finishRoute] hands it to the storage service. *)
Lemma recorder_accepts_zero_green :
  let st := run [Press (Some Sample.here) 1000 "a" 1000;
                 Release 1000;
                 TimerExpires 4000;
                 Press (Some Sample.here) 9000 "b" 9000] Sample.recording in
  exists s,
    recordedSignals st = [s] /\
    Route.signals (snd (finishRoute 9500 st)) = [s] /\
    SignalCycle.greenDuration (Signal.cycle s) == 0 /\
    ~ validCycle (Signal.cycle s).
Proof.
  eexists. split; [vm_compute; reflexivity |]. split; [reflexivity |].
  split; [reflexivity |]. intros (Hg & _). discriminate Hg.
Qed.

(** C2, amended.  The recorder validates nothing and rejects nothing.
    Every signal it has recorded has a total duration equal to the sum of
    its green, yellow and red durations, by construction; and the cycle
    built by a press in RED satisfies the invariant of the data model
    exactly when [greenStart < greenEnd], [redStart < now] and the
    configured yellow duration is positive (the signal is appended in
    either case). *)
Theorem recorded_cycles_sum_without_validation :
  (forall routeId evs,
     Forall (fun s => SignalCycle.totalDuration (Signal.cycle s)
                      == SignalCycle.greenDuration (Signal.cycle s)
                         + SignalCycle.yellowDuration (Signal.cycle s)
                         + SignalCycle.redDuration (Signal.cycle s))
            (recordedSignals (run evs (initialState routeId)))) /\
  (forall userLocation now uuid createdAt st,
     signalPhase st = RED ->
     exists s,
       recordedSignals (handleSignalPress userLocation now uuid createdAt st)
         = recordedSignals st ++ [s] /\
       (validCycle (Signal.cycle s) <->
          greenStart (cycleData st) < greenEnd (cycleData st) /\
          0 < yellowDuration st /\
          redStart (cycleData st) < now)).
Proof.
  split.
  - intros routeId evs. apply run_totals. constructor.
  - intros loc now uuid createdAt st Hred.
    destruct (press_in_red loc now uuid createdAt st Hred)
      as (s & Hs & Hg & Hr & Hy & Ht & _).
    exists s. split; [exact Hs |]. unfold validCycle. rewrite Ht, Hg, Hr, Hy.
    set (gs := greenStart (cycleData st)). set (ge := greenEnd (cycleData st)).
    set (rs := redStart (cycleData st)). set (y := yellowDuration st).
    clearbody gs ge rs y.
    assert (Hdiv : forall x, 0 < x / 1000 <-> 0 < x).
    { intros x. split; intros H.
      - apply (Qmult_lt_r _ _ 1000) in H; [| reflexivity].
        rewrite Qmult_0_l in H.
        assert (E : x / 1000 * 1000 == x) by field. now rewrite E in H.
      - apply Qlt_shift_div_l; [reflexivity |]. now rewrite Qmult_0_l. }
    split.
    + intros (H1 & H2 & H3 & _).
      apply (proj1 (Hdiv _)) in H1. apply (proj1 (Hdiv _)) in H3.
      repeat split; lra.
    + intros (H1 & H2 & H3). split; [apply Hdiv; lra |].
      split; [exact H2 |]. split; [apply Hdiv; lra | reflexivity].
Qed.

(** A cycle recorded with increasing clock readings is valid. *)
Lemma recorded_cycles_sum_without_validation_witness :
  exists s,
    recordedSignals
      (handleSignalPress (Some Sample.here) 58000 "b" 58000
         (run [Press (Some Sample.here) 0 "a" 0; Release 28000; TimerExpires 31000]
              Sample.recording)) = [s] /\
    validCycle (Signal.cycle s).
Proof.
  destruct recorded_cycles_sum_without_validation as [_ H].
  destruct (H (Some Sample.here) 58000 "b" 58000
              (run [Press (Some Sample.here) 0 "a" 0; Release 28000; TimerExpires 31000]
                   Sample.recording) eq_refl) as (s & Hs & Hv).
  exists s. split; [exact Hs |]. apply Hv. repeat split.
Defined.

(** C4.  A press in RED at time [now] completes the cycle: the signal
    constructed has green duration [greenEnd - greenStart] and red duration
    [now - redStart], both in seconds (the clock counts milliseconds), the
    configured yellow duration, their sum as total duration, [greenStart] as
    reference timestamp and the vehicle's current position as location; it
    is appended to the signals of the route being recorded and the machine
    is back in WAITING_GREEN.  With a press at 0 s, a release at 28 s, the
    3 s yellow timer firing at 31 s and a press at 58 s the signal has
    green 28, yellow 3, red 27, total 58 and reference timestamp 0. *)
Theorem press_in_red_completes_cycle :
  (forall userLocation now uuid createdAt st,
     signalPhase st = RED ->
     let st' := handleSignalPress userLocation now uuid createdAt st in
     exists s,
       recordedSignals st' = recordedSignals st ++ [s] /\
       SignalCycle.greenDuration (Signal.cycle s)
         == (greenEnd (cycleData st) - greenStart (cycleData st)) / 1000 /\
       SignalCycle.redDuration (Signal.cycle s)
         == (now - redStart (cycleData st)) / 1000 /\
       SignalCycle.yellowDuration (Signal.cycle s) == yellowDuration st /\
       SignalCycle.totalDuration (Signal.cycle s)
         == SignalCycle.greenDuration (Signal.cycle s)
            + SignalCycle.yellowDuration (Signal.cycle s)
            + SignalCycle.redDuration (Signal.cycle s) /\
       Signal.referenceTimestamp s == greenStart (cycleData st) /\
       Signal.location s = userLocation /\
       signalPhase st' = WAITING_GREEN) /\
  (forall routeId position uuid0 createdAt0 uuid createdAt,
     let st' := run [Press position 0 uuid0 createdAt0;
                     Release 28000;
                     TimerExpires 31000;
                     Press position 58000 uuid createdAt]
                    (setUiPhase RECORDING_SIGNAL (initialState routeId)) in
     exists s,
       recordedSignals st' = [s] /\
       SignalCycle.greenDuration (Signal.cycle s) == 28 /\
       SignalCycle.yellowDuration (Signal.cycle s) == 3 /\
       SignalCycle.redDuration (Signal.cycle s) == 27 /\
       SignalCycle.totalDuration (Signal.cycle s) == 58 /\
       Signal.referenceTimestamp s == 0 /\
       Signal.location s = position /\
       signalPhase st' = WAITING_GREEN).
Proof.
  split.
  - intros loc now uuid createdAt st Hred st'.
    destruct (press_in_red loc now uuid createdAt st Hred)
      as (s & Hs & Hg & Hr & Hy & Ht & Href & Hloc & _ & Hph & _).
    exists s. rewrite Ht, Hg, Hr, Hy, Href. repeat split; try reflexivity; assumption.
  - intros routeId position uuid0 createdAt0 uuid createdAt st'.
    subst st'. vm_compute. eexists. split; [reflexivity |]. repeat split.
Qed.

(** The completing press of the scenario, on the recorder of the
    samples. *)
Lemma press_in_red_completes_cycle_witness :
  exists s,
    recordedSignals
      (handleSignalPress (Some Sample.here) 58000 "b" 58000
         (run [Press (Some Sample.here) 0 "a" 0; Release 28000; TimerExpires 31000]
              Sample.recording)) = [s] /\
    SignalCycle.greenDuration (Signal.cycle s) == (28000 - 0) / 1000 /\
    SignalCycle.redDuration (Signal.cycle s) == (58000 - 31000) / 1000 /\
    Signal.location s = Some Sample.here.
Proof.
  destruct press_in_red_completes_cycle as [H _].
  destruct (H (Some Sample.here) 58000 "b" 58000
              (run [Press (Some Sample.here) 0 "a" 0; Release 28000; TimerExpires 31000]
                   Sample.recording) eq_refl)
    as (s & Hs & Hg & Hr & _ & _ & _ & Hloc & _).
  exists s. repeat split; assumption.
Defined.

(** C8.  An invalid gesture is a no-op, in every state of the recorder: a
    release while in RED, WAITING_GREEN or YELLOW leaves the whole state
    unchanged (phase, cycle data, recorded signals, pending timers), and
    so does a press while in GREEN or YELLOW. *)
Theorem invalid_gestures_are_ignored (st : State) :
  (forall now,
     signalPhase st = RED \/ signalPhase st = WAITING_GREEN \/ signalPhase st = YELLOW ->
     handleSignalRelease now st = st) /\
  (forall userLocation now uuid createdAt,
     signalPhase st = GREEN \/ signalPhase st = YELLOW ->
     handleSignalPress userLocation now uuid createdAt st = st).
Proof.
  split.
  - intros now H. unfold handleSignalRelease.
    destruct (signalPhase st); try reflexivity.
    destruct H as [H | [H | H]]; discriminate H.
  - intros loc now uuid createdAt H. unfold handleSignalPress.
    destruct (signalPhase st); try reflexivity;
      destruct H as [H | H]; discriminate H.
Qed.

(** A release before any press, and a second press while GREEN. *)
Lemma invalid_gestures_are_ignored_witness :
  handleSignalRelease 500 Sample.recording = Sample.recording /\
  handleSignalPress (Some Sample.here) 700 "b" 700
    (handleSignalPress (Some Sample.here) 500 "a" 500 Sample.recording)
  = handleSignalPress (Some Sample.here) 500 "a" 500 Sample.recording.
Proof.
  split.
  - apply (invalid_gestures_are_ignored Sample.recording). right. left. reflexivity.
  - apply (invalid_gestures_are_ignored
             (handleSignalPress (Some Sample.here) 500 "a" 500 Sample.recording)).
    left. reflexivity.
Defined.

End RecorderClaims.

(** ** The claim about the great-circle distance *)

Section DistanceClaims.

Local Open Scope float_scope.

(** C9 (the source departs from the claim).  The claim: for all
    coordinates [distance (a, b) == distance (b, a)].  The source computes
    [Math.sqrt (1 - a)] without keeping the haversine term [a] within
    [[0, 1]].  For the nearly antipodal coordinates (8, 0) and (-8, 180)
    the term is [sin^2 + cos^2] of 8 degrees; with the sine and the cosine
    rounded to the nearest doubles it evaluates to 1.0000000000000002, so
    that [1 - a] is negative, its square root is [NaN], and the distance
    is [NaN] in both orders: the two results do not compare equal. *)
Theorem distance_near_antipodes_is_NaN (M : IEEE.Math) :
  IEEE.atan2OfNaN M ->
  IEEE.nearestAtEightDegrees M ->
  let a := {| IEEE.latitude := 8; IEEE.longitude := 0 |} in
  let b := {| IEEE.latitude := -8; IEEE.longitude := 180 |} in
  IEEE.calculateDistance M a b = nan /\
  IEEE.calculateDistance M b a = nan /\
  IEEE.eq (IEEE.calculateDistance M a b) (IEEE.calculateDistance M b a) = false.
Proof.
  intros Hnan (Hs & Hs' & Hc & Hc' & Hr & Hr') a b.
  assert (Hab : IEEE.calculateDistance M a b = nan).
  { unfold IEEE.calculateDistance, a, b. cbn [IEEE.latitude IEEE.longitude]. cbv zeta.
    change ((-8 - 8) * IEEE.PI / 180 / 2) with (- IEEE.eightDegrees).
    change ((180 - 0) * IEEE.PI / 180 / 2) with IEEE.rightAngle.
    change (8 * IEEE.PI / 180) with IEEE.eightDegrees.
    change (-8 * IEEE.PI / 180) with (- IEEE.eightDegrees).
    rewrite Hs', Hc, Hc', Hr.
    change (sqrt (1 - _)) with nan.
    rewrite Hnan. reflexivity. }
  assert (Hba : IEEE.calculateDistance M b a = nan).
  { unfold IEEE.calculateDistance, a, b. cbn [IEEE.latitude IEEE.longitude]. cbv zeta.
    change ((8 - -8) * IEEE.PI / 180 / 2) with IEEE.eightDegrees.
    change ((0 - 180) * IEEE.PI / 180 / 2) with (- IEEE.rightAngle).
    change (8 * IEEE.PI / 180) with IEEE.eightDegrees.
    change (-8 * IEEE.PI / 180) with (- IEEE.eightDegrees).
    rewrite Hs, Hc, Hc', Hr'.
    change (sqrt (1 - _)) with nan.
    rewrite Hnan. reflexivity. }
  rewrite Hab, Hba. repeat split.
Qed.

(** The example on a platform with the values named above. *)
Lemma distance_near_antipodes_is_NaN_witness :
  IEEE.eq
    (IEEE.calculateDistance Demo.libm
       {| IEEE.latitude := 8; IEEE.longitude := 0 |}
       {| IEEE.latitude := -8; IEEE.longitude := 180 |})
    (IEEE.calculateDistance Demo.libm
       {| IEEE.latitude := -8; IEEE.longitude := 180 |}
       {| IEEE.latitude := 8; IEEE.longitude := 0 |}) = false.
Proof.
  apply (distance_near_antipodes_is_NaN Demo.libm).
  - intros y. reflexivity.
  - repeat split.
Defined.

End DistanceClaims.

(** ** The claim about the persisted route list *)

Section StorageClaims.

Import StorageService.

(** [findIndex] answers [-1] when no element passes the test, and
    otherwise the position of the first element that does. *)
Lemma findIndexFrom_spec {A} (p : A -> bool) (l : list A) (i : Z) :
  (findIndexFrom p l i = (-1)%Z /\ Forall (fun x => p x = false) l) \/
  (exists (k : nat) (x : A),
     findIndexFrom p l i = (i + Z.of_nat k)%Z /\ l !! k = Some x /\ p x = true).
Proof.
  revert i. induction l as [| x l IH]; intros i; simpl.
  - left. split; [reflexivity | constructor].
  - destruct (p x) eqn:Hx.
    + right. exists 0%nat, x. split; [lia | split; [reflexivity | exact Hx]].
    + destruct (IH (i + 1)%Z) as [[Hi Hall] | (k & y & Hi & Hk & Hy)].
      * left. split; [exact Hi | now constructor].
      * right. exists (S k), y. split; [lia | split; assumption].
Qed.

(** The two branches of [saveRoute]. *)
Lemma saveRoute_cases (route : Route) (storage : Storage) :
  ((Route.id route ∉ ids storage) /\
   getRoutes (saveRoute route storage) = getRoutes storage ++ [route]) \/
  (exists (k : nat) (old : Route),
     getRoutes storage !! k = Some old /\
     Route.id old = Route.id route /\
     getRoutes (saveRoute route storage) = <[k := route]> (getRoutes storage)).
Proof.
  unfold saveRoute, findIndex, ids, getRoutes.
  destruct (findIndexFrom_spec
              (fun r => bool_decide (Route.id r = Route.id route))
              (parseOrEmpty storage) 0) as [[Hi Hall] | (k & old & Hi & Hk & Hold)];
    rewrite Hi.
  - left. split; [| reflexivity].
    intros Hin. apply list_elem_of_fmap in Hin as (r & Hr & Hin).
    rewrite Forall_forall in Hall. apply Hall in Hin.
    apply bool_decide_eq_false in Hin. congruence.
  - right. exists k, old. apply bool_decide_eq_true in Hold.
    replace (0 <=? 0 + Z.of_nat k)%Z with true by (symmetry; apply Z.leb_le; lia).
    replace (Z.to_nat (0 + Z.of_nat k)) with k by lia.
    repeat split; assumption.
Qed.

(** Replacing a route by one with the same id leaves the list of ids as
    it is. *)
Lemma ids_insert_same (routes : list Route) (k : nat) (old route : Route) :
  routes !! k = Some old -> Route.id old = Route.id route ->
  Route.id <$> <[k := route]> routes = Route.id <$> routes.
Proof.
  intros Hk Hid. rewrite list_fmap_insert. apply list_insert_id.
  rewrite list_lookup_fmap, Hk. simpl. now rewrite Hid.
Qed.

Lemma saveRoute_NoDup (route : Route) (storage : Storage) :
  NoDup (ids storage) -> NoDup (ids (saveRoute route storage)).
Proof.
  intros Hnd. unfold ids.
  destruct (saveRoute_cases route storage) as [[Hnew ->] | (k & old & Hk & Hid & ->)].
  - rewrite fmap_app. apply NoDup_app. split; [exact Hnd |]. split.
    + intros x Hx Hx'. apply list_elem_of_singleton in Hx'. subst x. now apply Hnew.
    + apply NoDup_singleton.
  - now rewrite (ids_insert_same _ _ old).
Qed.

Lemma deleteRouteResume_NoDup (id : string) (routes : list Route) :
  NoDup (Route.id <$> routes) -> NoDup (ids (deleteRouteResume id routes)).
Proof.
  intros Hnd. unfold ids, deleteRouteResume. simpl.
  eapply sublist_NoDup; [exact Hnd |].
  apply fmap_sublist, sublist_filter.
Qed.

Lemma call_NoDup (storage : Storage) (c : Call) :
  NoDup (ids storage) -> NoDup (ids (call storage c)).
Proof.
  destruct c as [route | id]; simpl.
  - apply saveRoute_NoDup.
  - apply deleteRouteResume_NoDup.
Qed.

Lemma calls_NoDup (cs : list Call) (storage : Storage) :
  NoDup (ids storage) -> NoDup (ids (calls cs storage)).
Proof.
  revert storage. induction cs as [| c cs IH]; intros storage H; simpl; [exact H |].
  apply IH, call_NoDup, H.
Qed.

(** The same invariant when calls are not awaited. *)
Lemma act_uniqueIds (w : World) (a : Action) : uniqueIds w -> uniqueIds (act w a).
Proof.
  intros [Hst Hsus]. destruct a as [route | id | k]; simpl.
  - split; [now apply saveRoute_NoDup | exact Hsus].
  - split; [exact Hst |]. apply Forall_app. split; [exact Hsus |].
    constructor; [exact Hst | constructor].
  - destruct (suspended w !! k) as [[id routes] |] eqn:Hk; [| now split].
    split; simpl.
    + apply deleteRouteResume_NoDup.
      rewrite Forall_forall in Hsus.
      apply (Hsus (id, routes)), list_elem_of_lookup. eauto.
    + apply Forall_delete, Hsus.
Qed.

Lemma acts_uniqueIds (l : list Action) (w : World) : uniqueIds w -> uniqueIds (acts l w).
Proof.
  revert w. induction l as [| a l IH]; intros w H; simpl; [exact H |].
  apply IH, act_uniqueIds, H.
Qed.

(** C10.  The persisted route list never holds two routes with the same
    id.  On a store with at most one route per id, [saveRoute] with an id
    that is already stored replaces that entry in place (same length, same
    ids in the same order) instead of appending a duplicate; [saveRoute]
    with a new id appends exactly one entry; [deleteRoute] removes every
    route with the given id and no other; hence after any sequence of
    [saveRoute] and [deleteRoute] calls from an empty store [getRoutes]
    returns at most one route per id. *)
Theorem stored_ids_stay_unique :
  (forall (route : Route) (storage : Storage),
     NoDup (ids storage) ->
     Route.id route ∈ ids storage ->
     (exists (k : nat) (old : Route),
        getRoutes storage !! k = Some old /\
        Route.id old = Route.id route /\
        getRoutes (saveRoute route storage) = <[k := route]> (getRoutes storage) /\
        getRoutes (saveRoute route storage) !! k = Some route) /\
     length (getRoutes (saveRoute route storage)) = length (getRoutes storage) /\
     ids (saveRoute route storage) = ids storage /\
     NoDup (ids (saveRoute route storage))) /\
  (forall (route : Route) (storage : Storage),
     NoDup (ids storage) ->
     Route.id route ∉ ids storage ->
     getRoutes (saveRoute route storage) = getRoutes storage ++ [route] /\
     NoDup (ids (saveRoute route storage))) /\
  (forall (id : string) (storage : Storage),
     NoDup (ids storage) ->
     (id ∉ ids (deleteRoute id storage)) /\
     (forall r : Route,
        r ∈ getRoutes (deleteRoute id storage) <->
        r ∈ getRoutes storage /\ Route.id r <> id) /\
     NoDup (ids (deleteRoute id storage))) /\
  (forall cs : list Call, NoDup (ids (calls cs None))).
Proof.
  split; [| split; [| split]].
  - intros route storage Hnd Hin.
    destruct (saveRoute_cases route storage) as [[Hnew _] | (k & old & Hk & Hid & Hsave)];
      [contradiction |].
    assert (Hlen : (k < length (getRoutes storage))%nat) by (eapply lookup_lt_Some; eauto).
    split; [| split; [| split]].
    + exists k, old. repeat split; try assumption.
      rewrite Hsave. now apply list_lookup_insert_eq.
    + rewrite Hsave. apply length_insert.
    + unfold ids. rewrite Hsave. now apply (ids_insert_same _ _ old).
    + now apply saveRoute_NoDup.
  - intros route storage Hnd Hnew.
    destruct (saveRoute_cases route storage) as [[_ Hsave] | (k & old & Hk & Hid & _)].
    + split; [exact Hsave | now apply saveRoute_NoDup].
    + exfalso. apply Hnew. unfold ids. rewrite <- Hid.
      apply list_elem_of_fmap_2. apply list_elem_of_lookup. eauto.
  - intros id storage Hnd.
    assert (Hmem : forall r : Route,
              r ∈ getRoutes (deleteRoute id storage) <->
              r ∈ getRoutes storage /\ Route.id r <> id).
    { intros r. unfold deleteRoute, deleteRouteResume. simpl.
      rewrite list_elem_of_filter. tauto. }
    split; [| split; [exact Hmem |]].
    + intros Hin. apply list_elem_of_fmap in Hin as (r & Hr & Hin).
      apply Hmem in Hin. destruct Hin as [_ Hne]. congruence.
    + now apply deleteRouteResume_NoDup.
  - intros cs. apply calls_NoDup. constructor.
Qed.

(** Two stored routes: saving under a stored id, saving under a new id,
    deleting. *)
Lemma stored_ids_stay_unique_witness :
  let storage :=
    calls [SaveRoute (Sample.routeNamed "a" "first");
           SaveRoute (Sample.routeNamed "b" "second")] None in
  getRoutes (saveRoute (Sample.routeNamed "a" "renamed") storage)
    = [Sample.routeNamed "a" "renamed"; Sample.routeNamed "b" "second"] /\
  length (getRoutes (saveRoute (Sample.routeNamed "a" "renamed") storage)) = 2%nat /\
  getRoutes (saveRoute (Sample.routeNamed "c" "third") storage)
    = getRoutes storage ++ [Sample.routeNamed "c" "third"] /\
  ("a" ∉ ids (deleteRoute "a" storage)).
Proof.
  intros storage.
  assert (Hnd : NoDup (ids storage)).
  { apply NoDup_cons. split; [| apply NoDup_singleton].
    intros H. apply list_elem_of_singleton in H. discriminate H. }
  destruct stored_ids_stay_unique as (Hreplace & Happend & Hdelete & _).
  split; [reflexivity |]. split; [| split].
  - destruct (Hreplace (Sample.routeNamed "a" "renamed") storage Hnd) as (_ & Hlen & _).
    + left.
    + exact Hlen.
  - destruct (Happend (Sample.routeNamed "c" "third") storage Hnd) as [Hsave _].
    + intros H. apply elem_of_cons in H as [H | H]; [discriminate H |].
      apply list_elem_of_singleton in H. discriminate H.
    + exact Hsave.
  - destruct (Hdelete "a" storage Hnd) as [Hgone _]. exact Hgone.
Defined.

End StorageClaims.

(** * Further properties *)

(** ** The storage service: lookups, replacement, deletion *)

Section StorageFacts.

Import StorageService.

(** A list either has no element passing a test, or splits at the first
    one that does. *)
Lemma first_match_split {A} (p : A -> bool) (l : list A) :
  Forall (fun x => p x = false) l \/
  exists l1 x l2, l = l1 ++ x :: l2 /\ Forall (fun x => p x = false) l1 /\ p x = true.
Proof.
  induction l as [| y l IH].
  - left. constructor.
  - destruct (p y) eqn:Hy.
    + right. exists [], y, l. repeat split; [constructor | exact Hy].
    + destruct IH as [Hall | (l1 & x & l2 & -> & Hl1 & Hx)].
      * left. now constructor.
      * right. exists (y :: l1), x, l2. repeat split; [now constructor | exact Hx].
Qed.

Lemma findIndexFrom_no_match {A} (p : A -> bool) (l : list A) (i : Z) :
  Forall (fun x => p x = false) l -> findIndexFrom p l i = (-1)%Z.
Proof.
  intros H. revert i. induction H as [| x l Hx _ IH]; intros i; simpl; [reflexivity |].
  rewrite Hx. apply IH.
Qed.

Lemma findIndexFrom_first_match {A} (p : A -> bool) (l1 : list A) (x : A) (l2 : list A) (i : Z) :
  Forall (fun x => p x = false) l1 -> p x = true ->
  findIndexFrom p (l1 ++ x :: l2) i = (i + Z.of_nat (length l1))%Z.
Proof.
  intros H Hx. revert i. induction H as [| y l1 Hy _ IH]; intros i; simpl.
  - rewrite Hx. lia.
  - rewrite Hy, IH. lia.
Qed.

Lemma find_app {A} (p : A -> bool) (l1 l2 : list A) :
  List.find p (l1 ++ l2)
  = match List.find p l1 with Some x => Some x | None => List.find p l2 end.
Proof.
  induction l1 as [| y l1 IH]; simpl; [reflexivity |]. now destruct (p y).
Qed.

Lemma find_no_match {A} (p : A -> bool) (l : list A) :
  Forall (fun x => p x = false) l -> List.find p l = None.
Proof.
  induction 1 as [| x l Hx _ IH]; simpl; [reflexivity |]. now rewrite Hx.
Qed.

(** [saveRoute] appends when no stored route has the id ... *)
Lemma saveRoute_append (route : Route) (storage : Storage) :
  Forall (fun r => bool_decide (Route.id r = Route.id route) = false) (getRoutes storage) ->
  saveRoute route storage = Some (getRoutes storage ++ [route]).
Proof.
  intros H. unfold saveRoute, findIndex. fold (getRoutes storage).
  now rewrite (findIndexFrom_no_match _ _ _ H).
Qed.

(** ... and overwrites the first stored route that has it. *)
Lemma saveRoute_replace (route : Route) (storage : Storage) l1 old l2 :
  getRoutes storage = l1 ++ old :: l2 ->
  Forall (fun r => bool_decide (Route.id r = Route.id route) = false) l1 ->
  bool_decide (Route.id old = Route.id route) = true ->
  saveRoute route storage = Some (l1 ++ route :: l2).
Proof.
  intros Hl Hl1 Hold. unfold saveRoute, findIndex. fold (getRoutes storage).
  rewrite Hl, (findIndexFrom_first_match _ _ _ _ _ Hl1 Hold).
  replace (0 <=? 0 + Z.of_nat (length l1))%Z with true by (symmetry; apply Z.leb_le; lia).
  replace (Z.to_nat (0 + Z.of_nat (length l1))) with (length l1 + 0)%nat by lia.
  now rewrite insert_app_r.
Qed.

(** X1.  Looking up the id of a route that was just saved returns that
    route, whatever was stored before (also under a duplicated id). *)
Theorem saved_route_is_found (route : Route) (storage : Storage) :
  getRouteById (Route.id route) (saveRoute route storage) = Some route.
Proof.
  unfold getRouteById.
  assert (Hroute : bool_decide (Route.id route = Route.id route) = true)
    by now apply bool_decide_eq_true.
  destruct (first_match_split (fun r => bool_decide (Route.id r = Route.id route))
              (getRoutes storage)) as [Hnone | (l1 & old & l2 & Hl & Hl1 & Hold)].
  - rewrite (saveRoute_append _ _ Hnone). simpl.
    rewrite find_app, (find_no_match _ _ Hnone). simpl. now rewrite Hroute.
  - rewrite (saveRoute_replace _ _ _ _ _ Hl Hl1 Hold). simpl.
    rewrite find_app, (find_no_match _ _ Hl1). simpl. now rewrite Hroute.
Qed.

(** X2.  Saving a route does not change what a lookup of any other id
    returns. *)
Theorem save_keeps_other_lookups (route : Route) (storage : Storage) (id : string) :
  id <> Route.id route ->
  getRouteById id (saveRoute route storage) = getRouteById id storage.
Proof.
  intros Hne. unfold getRouteById.
  assert (Hroute : bool_decide (Route.id route = id) = false)
    by (apply bool_decide_eq_false; congruence).
  destruct (first_match_split (fun r => bool_decide (Route.id r = Route.id route))
              (getRoutes storage)) as [Hnone | (l1 & old & l2 & Hl & Hl1 & Hold)].
  - rewrite (saveRoute_append _ _ Hnone). simpl.
    rewrite find_app. simpl. rewrite Hroute. now destruct (find _ _).
  - rewrite (saveRoute_replace _ _ _ _ _ Hl Hl1 Hold), Hl. simpl.
    rewrite !find_app. simpl. rewrite Hroute.
    apply bool_decide_eq_true in Hold.
    replace (bool_decide (Route.id old = id)) with false
      by (symmetry; apply bool_decide_eq_false; congruence).
    reflexivity.
Qed.

Lemma save_keeps_other_lookups_witness :
  getRouteById "b"
    (saveRoute (Sample.routeNamed "a" "renamed")
       (calls [SaveRoute (Sample.routeNamed "a" "first");
               SaveRoute (Sample.routeNamed "b" "second")] None))
  = Some (Sample.routeNamed "b" "second").
Proof.
  rewrite (save_keeps_other_lookups (Sample.routeNamed "a" "renamed") _ "b");
    [reflexivity | discriminate].
Defined.

(** X3.  After [deleteRoute id] a lookup of [id] finds nothing, and a
    lookup of any other id returns what it returned before. *)
Theorem deleted_route_is_not_found (id : string) (storage : Storage) :
  getRouteById id (deleteRoute id storage) = None /\
  (forall id', id' <> id ->
     getRouteById id' (deleteRoute id storage) = getRouteById id' storage).
Proof.
  unfold getRouteById, deleteRoute, deleteRouteResume. simpl.
  generalize (getRoutes storage). intros l. split.
  - induction l as [| r l IH]; [reflexivity |].
    rewrite filter_cons. destruct (decide (Route.id r <> id)) as [Hr | Hr]; [| exact IH].
    simpl. rewrite IH.
    now replace (bool_decide (Route.id r = id)) with false
      by (symmetry; now apply bool_decide_eq_false).
  - intros id' Hne. induction l as [| r l IH]; [reflexivity |].
    rewrite filter_cons. destruct (decide (Route.id r <> id)) as [Hr | Hr]; simpl.
    + now rewrite IH.
    + rewrite IH.
      replace (bool_decide (Route.id r = id')) with false; [reflexivity |].
      symmetry. apply bool_decide_eq_false. intros E. apply Hr. congruence.
Qed.

Lemma deleted_route_is_not_found_witness :
  getRouteById "b"
    (deleteRoute "a"
       (calls [SaveRoute (Sample.routeNamed "a" "first");
               SaveRoute (Sample.routeNamed "b" "second")] None))
  = Some (Sample.routeNamed "b" "second").
Proof.
  destruct (deleted_route_is_not_found "a"
              (calls [SaveRoute (Sample.routeNamed "a" "first");
                      SaveRoute (Sample.routeNamed "b" "second")] None)) as [_ H].
  rewrite (H "b"); [reflexivity | discriminate].
Defined.

(** X4.  [saveRoute] is idempotent: saving the same route twice leaves the
    store as after the first save. *)
Theorem saveRoute_idempotent (route : Route) (storage : Storage) :
  saveRoute route (saveRoute route storage) = saveRoute route storage.
Proof.
  assert (Hroute : bool_decide (Route.id route = Route.id route) = true)
    by now apply bool_decide_eq_true.
  destruct (first_match_split (fun r => bool_decide (Route.id r = Route.id route))
              (getRoutes storage)) as [Hnone | (l1 & old & l2 & Hl & Hl1 & Hold)].
  - rewrite (saveRoute_append _ _ Hnone).
    now apply (saveRoute_replace route _ (getRoutes storage) route []).
  - rewrite (saveRoute_replace _ _ _ _ _ Hl Hl1 Hold).
    now apply (saveRoute_replace route _ l1 route l2).
Qed.

(** X5.  Deleting the id of a route that was just saved undoes the save
    and removes what was stored under that id before: the store is the
    one [deleteRoute] yields without the save. *)
Theorem delete_undoes_save (route : Route) (storage : Storage) :
  deleteRoute (Route.id route) (saveRoute route storage)
  = deleteRoute (Route.id route) storage.
Proof.
  unfold deleteRoute, deleteRouteResume.
  assert (Hroute : ~ Route.id route <> Route.id route) by tauto.
  destruct (first_match_split (fun r => bool_decide (Route.id r = Route.id route))
              (getRoutes storage)) as [Hnone | (l1 & old & l2 & Hl & Hl1 & Hold)].
  - rewrite (saveRoute_append _ _ Hnone). simpl.
    rewrite filter_app,
      (filter_cons_False (fun r => Route.id r <> Route.id route) route _ Hroute). simpl.
    now rewrite app_nil_r.
  - rewrite (saveRoute_replace _ _ _ _ _ Hl Hl1 Hold), Hl. simpl.
    apply bool_decide_eq_true in Hold.
    rewrite !filter_app,
      (filter_cons_False (fun r => Route.id r <> Route.id route) route _ Hroute).
    rewrite (filter_cons_False (fun r => Route.id r <> Route.id route) old);
      [reflexivity | intros H; now apply H].
Qed.

(** X6.  Deleting an id that is not stored leaves the route list as it
    is (on a store that was never written the key is created, with the
    empty list), and deleting twice is deleting once. *)
Theorem delete_absent_changes_nothing (id : string) (storage : Storage) :
  (id ∉ ids storage -> getRoutes (deleteRoute id storage) = getRoutes storage) /\
  deleteRoute id None = Some [] /\
  deleteRoute id (deleteRoute id storage) = deleteRoute id storage.
Proof.
  assert (Hkeep : forall l : list Route,
            Forall (fun r => Route.id r <> id) l ->
            filter (fun r => Route.id r <> id) l = l).
  { induction 1 as [| r l Hr _ IH]; [reflexivity |].
    now rewrite (filter_cons_True (fun r => Route.id r <> id) _ _ Hr), IH. }
  split; [| split].
  - intros Habsent. unfold deleteRoute, deleteRouteResume. simpl. apply Hkeep.
    apply Forall_forall. intros r Hr E. apply Habsent. unfold ids. rewrite <- E.
    now apply list_elem_of_fmap_2.
  - reflexivity.
  - unfold deleteRoute, deleteRouteResume. simpl. f_equal. apply Hkeep.
    apply Forall_forall. intros r Hr. now apply list_elem_of_filter in Hr as [Hr _].
Qed.

Lemma delete_absent_changes_nothing_witness :
  getRoutes (deleteRoute "c" (saveRoute (Sample.routeNamed "a" "first") None))
  = [Sample.routeNamed "a" "first"].
Proof.
  destruct (delete_absent_changes_nothing "c"
              (saveRoute (Sample.routeNamed "a" "first") None)) as [H _].
  rewrite H; [reflexivity |].
  intros Hin. apply list_elem_of_singleton in Hin. discriminate Hin.
Defined.

End StorageFacts.

(** ** The location service: the nearest route *)

Section RouteFinderFacts.

Local Open Scope Q_scope.

Variable calculateDistance : Coordinate -> Coordinate -> number.
Variable userLocation : Coordinate.
Variable thresholdMeters : number.

(** What the pair [(bestRoute, minDistance)] means while the loops run over
    the routes [routes]: nothing found yet, or a route of the list with a
    signal at distance [minDistance], below the threshold. *)
Lemma signalsLoop_found (routes : list Route) route signals best m best' m' :
  route ∈ routes ->
  (forall s, s ∈ signals -> s ∈ Route.signals route) ->
  (best = None /\ m = None \/
   exists r s loc,
     best = Some r /\ r ∈ routes /\ s ∈ Route.signals r /\ Signal.location s = Some loc /\
     m = Some (calculateDistance userLocation loc) /\
     calculateDistance userLocation loc < thresholdMeters) ->
  RouteFinder.signalsLoop calculateDistance userLocation thresholdMeters route signals best m
    = Some (best', m') ->
  best' = None /\ m' = None \/
  exists r s loc,
    best' = Some r /\ r ∈ routes /\ s ∈ Route.signals r /\ Signal.location s = Some loc /\
    m' = Some (calculateDistance userLocation loc) /\
    calculateDistance userLocation loc < thresholdMeters.
Proof.
  intros Hroute. revert best m.
  induction signals as [| s rest IH]; intros best m Hsub Hinv; simpl.
  - now intros [= <- <-].
  - destruct (Signal.location s) as [loc |] eqn:Hloc; [| discriminate].
    assert (Hrest : forall s0, s0 ∈ rest -> s0 ∈ Route.signals route)
      by (intros s0 H0; apply Hsub; now right).
    destruct (JS.lt _ thresholdMeters) eqn:Hth; simpl.
    + destruct (JS.ltInf _ m) eqn:Hm; apply IH; try assumption.
      right. exists route, s, loc. apply lt_true in Hth.
      repeat split; try assumption. apply Hsub. left.
    + now apply IH.
Qed.

Lemma routesLoop_found (all routes : list Route) best m best' m' :
  (forall r, r ∈ routes -> r ∈ all) ->
  (best = None /\ m = None \/
   exists r s loc,
     best = Some r /\ r ∈ all /\ s ∈ Route.signals r /\ Signal.location s = Some loc /\
     m = Some (calculateDistance userLocation loc) /\
     calculateDistance userLocation loc < thresholdMeters) ->
  RouteFinder.routesLoop calculateDistance userLocation thresholdMeters routes best m
    = Some (best', m') ->
  best' = None /\ m' = None \/
  exists r s loc,
    best' = Some r /\ r ∈ all /\ s ∈ Route.signals r /\ Signal.location s = Some loc /\
    m' = Some (calculateDistance userLocation loc) /\
    calculateDistance userLocation loc < thresholdMeters.
Proof.
  revert best m. induction routes as [| route rest IH]; intros best m Hsub Hinv; simpl.
  - now intros [= <- <-].
  - destruct (RouteFinder.signalsLoop _ _ _ _ _ _ _) as [[b1 m1] |] eqn:Hinner;
      [| discriminate].
    apply IH.
    + intros r Hr. apply Hsub. now right.
    + eapply signalsLoop_found; [| | exact Hinv | exact Hinner]; [| auto].
      apply Hsub. left.
Qed.

(** [minDistance] only decreases, and ends at or below the distance of
    every signal visited that is below the threshold. *)
Lemma signalsLoop_lower_bound route signals best m best' m' :
  RouteFinder.signalsLoop calculateDistance userLocation thresholdMeters route signals best m
    = Some (best', m') ->
  (forall d, m = Some d -> exists d', m' = Some d' /\ d' <= d) /\
  (forall s loc, s ∈ signals -> Signal.location s = Some loc ->
     calculateDistance userLocation loc < thresholdMeters ->
     exists d', m' = Some d' /\ d' <= calculateDistance userLocation loc).
Proof.
  revert best m. induction signals as [| s rest IH]; intros best m; simpl.
  - intros [= <- <-]. split.
    + intros d ->. exists d. split; [reflexivity | apply Qle_refl].
    + intros s loc Hs. inversion Hs.
  - destruct (Signal.location s) as [loc0 |] eqn:Hloc; [| discriminate].
    destruct (JS.lt _ thresholdMeters && JS.ltInf _ m) eqn:Htest;
      intros H; apply IH in H; destruct H as [Hm Hrest].
    + apply andb_true_iff in Htest as [Hth Hlt].
      destruct (Hm _ eq_refl) as (d' & Hd' & Hle). split.
      * intros d ->. simpl in Hlt. apply lt_true in Hlt.
        exists d'. split; [exact Hd' | lra].
      * intros s0 loc Hs0 Hl0 Hnear. apply elem_of_cons in Hs0 as [-> | Hs0].
        -- rewrite Hloc in Hl0. injection Hl0 as <-. eauto.
        -- now apply (Hrest s0).
    + split; [exact Hm |].
      intros s0 loc Hs0 Hl0 Hnear. apply elem_of_cons in Hs0 as [-> | Hs0];
        [| now apply (Hrest s0)].
      rewrite Hloc in Hl0. injection Hl0 as <-.
      apply lt_true in Hnear. rewrite Hnear in Htest. simpl in Htest.
      destruct m as [d |]; [| discriminate Htest]. simpl in Htest. apply lt_false in Htest.
      destruct (Hm _ eq_refl) as (d' & Hd' & Hle).
      exists d'. split; [exact Hd' | lra].
Qed.

Lemma routesLoop_lower_bound routes best m best' m' :
  RouteFinder.routesLoop calculateDistance userLocation thresholdMeters routes best m
    = Some (best', m') ->
  (forall d, m = Some d -> exists d', m' = Some d' /\ d' <= d) /\
  (forall r s loc, r ∈ routes -> s ∈ Route.signals r -> Signal.location s = Some loc ->
     calculateDistance userLocation loc < thresholdMeters ->
     exists d', m' = Some d' /\ d' <= calculateDistance userLocation loc).
Proof.
  revert best m. induction routes as [| route rest IH]; intros best m; simpl.
  - intros [= <- <-]. split.
    + intros d ->. exists d. split; [reflexivity | apply Qle_refl].
    + intros r s loc Hr. inversion Hr.
  - destruct (RouteFinder.signalsLoop _ _ _ _ _ _ _) as [[b1 m1] |] eqn:Hinner;
      [| discriminate].
    intros H. apply IH in H. destruct H as [Hm Hrest].
    apply signalsLoop_lower_bound in Hinner as [Hm1 Hsig]. split.
    + intros d Hd. destruct (Hm1 _ Hd) as (d1 & -> & Hle1).
      destruct (Hm _ eq_refl) as (d' & Hd' & Hle). exists d'. split; [exact Hd' | lra].
    + intros r s loc Hr Hs Hl Hnear. apply elem_of_cons in Hr as [-> | Hr].
      * destruct (Hsig s loc Hs Hl Hnear) as (d1 & -> & Hle1).
        destruct (Hm _ eq_refl) as (d' & Hd' & Hle). exists d'. split; [exact Hd' | lra].
      * now apply (Hrest r s loc).
Qed.

(** The loops only die on a signal without location. *)
Lemma signalsLoop_total route signals best m :
  Forall (fun s => Signal.location s <> None) signals ->
  exists res,
    RouteFinder.signalsLoop calculateDistance userLocation thresholdMeters route signals best m
      = Some res.
Proof.
  intros H. revert best m. induction H as [| s rest Hs _ IH]; intros best m; simpl.
  - eauto.
  - destruct (Signal.location s); [| congruence].
    destruct (JS.lt _ _ && JS.ltInf _ _); apply IH.
Qed.

Lemma routesLoop_total routes best m :
  Forall (fun r => Forall (fun s => Signal.location s <> None) (Route.signals r)) routes ->
  exists res,
    RouteFinder.routesLoop calculateDistance userLocation thresholdMeters routes best m
      = Some res.
Proof.
  intros H. revert best m. induction H as [| r rest Hr _ IH]; intros best m; simpl.
  - eauto.
  - destruct (signalsLoop_total r (Route.signals r) best m Hr) as [[b1 m1] ->]. apply IH.
Qed.

End RouteFinderFacts.

Section RouteFinderClaims.

Local Open Scope Q_scope.

Variable calculateDistance : Coordinate -> Coordinate -> number.

(** X10.  When [findNearestRoute] returns a route, it is one of the routes
    given, it has a signal closer to the user than the threshold (50 m by
    default), and no signal of any route given is closer than that
    signal. *)
Theorem nearest_route_is_nearest userLocation routes threshold best :
  RouteFinder.findNearestRoute calculateDistance userLocation routes threshold = Some (Some best) ->
  best ∈ routes /\
  exists s loc,
    s ∈ Route.signals best /\ Signal.location s = Some loc /\
    calculateDistance userLocation loc < default 50 threshold /\
    forall r' s' loc',
      r' ∈ routes -> s' ∈ Route.signals r' -> Signal.location s' = Some loc' ->
      calculateDistance userLocation loc <= calculateDistance userLocation loc'.
Proof.
  unfold RouteFinder.findNearestRoute. cbv zeta.
  destruct (RouteFinder.routesLoop _ _ _ _ _ _) as [[b m] |] eqn:Hloop; [| discriminate].
  intros [= ->].
  destruct (routesLoop_found _ _ _ routes routes None None _ _ (fun _ H => H)
              (or_introl (conj eq_refl eq_refl)) Hloop)
    as [[Hb _] | (r & s & loc & Hb & Hr & Hs & Hl & Hm & Hnear)]; [discriminate |].
  injection Hb as <-. split; [exact Hr |]. exists s, loc. repeat split; try assumption.
  intros r' s' loc' Hr' Hs' Hl'.
  destruct (Qlt_le_dec (calculateDistance userLocation loc') (default 50 threshold))
    as [Hnear' | Hfar'].
  - destruct (routesLoop_lower_bound _ _ _ _ _ _ _ _ Hloop) as [_ Hlb].
    destruct (Hlb r' s' loc' Hr' Hs' Hl' Hnear') as (d' & Hd' & Hle).
    rewrite Hm in Hd'. now injection Hd' as <-.
  - lra.
Qed.

(** X11.  When every signal of the routes has a location,
    [findNearestRoute] returns [null] exactly when no signal is closer to
    the user than the threshold; in particular it returns [null] for no
    routes and for routes without signals. *)
Theorem no_route_within_threshold userLocation routes threshold :
  Forall (fun r => Forall (fun s => Signal.location s <> None) (Route.signals r)) routes ->
  (RouteFinder.findNearestRoute calculateDistance userLocation routes threshold = Some None
   <-> forall r s loc,
         r ∈ routes -> s ∈ Route.signals r -> Signal.location s = Some loc ->
         default 50 threshold <= calculateDistance userLocation loc).
Proof.
  intros Hlocs. unfold RouteFinder.findNearestRoute. cbv zeta.
  destruct (routesLoop_total calculateDistance userLocation (default 50 threshold)
              routes None None Hlocs) as [[b m] Hloop].
  rewrite Hloop.
  pose proof (routesLoop_found _ _ _ routes routes None None _ _ (fun _ H => H)
                (or_introl (conj eq_refl eq_refl)) Hloop) as Hfound.
  destruct (routesLoop_lower_bound _ _ _ _ _ _ _ _ Hloop) as [_ Hlb].
  split.
  - intros [= ->] r s loc Hr Hs Hl.
    destruct (Qlt_le_dec (calculateDistance userLocation loc) (default 50 threshold))
      as [Hnear | Hfar]; [| exact Hfar].
    destruct (Hlb r s loc Hr Hs Hl Hnear) as (d' & Hd' & _).
    destruct Hfound as [[_ Hm] | (r0 & s0 & loc0 & Hb & _)]; congruence.
  - intros Hfar.
    destruct Hfound as [[-> _] | (r & s & loc & _ & Hr & Hs & Hl & _ & Hnear)];
      [reflexivity |].
    specialize (Hfar r s loc Hr Hs Hl). lra.
Qed.

End RouteFinderClaims.

Section RouteFinderExamples.

Local Open Scope Q_scope.

(** Two routes, one with a signal about 11 m away. *)
Lemma nearest_route_is_nearest_witness :
  exists s loc,
    s ∈ Route.signals (Demo.routeWith "near" [Demo.signalNear "s2" 35.6801]) /\
    Signal.location s = Some loc /\
    Demo.latitudeDistance (Demo.at_ 35.68) loc < 50.
Proof.
  destruct (nearest_route_is_nearest Demo.latitudeDistance (Demo.at_ 35.68)
              [Demo.routeWith "far" [Demo.signalNear "s1" 35.69];
               Demo.routeWith "near" [Demo.signalNear "s2" 35.6801]]
              None
              (Demo.routeWith "near" [Demo.signalNear "s2" 35.6801]) eq_refl)
    as (_ & s & loc & Hs & Hl & Hnear & _).
  exists s, loc. auto.
Defined.

(** The only signal is about 1.1 km away. *)
Lemma no_route_within_threshold_witness :
  RouteFinder.findNearestRoute Demo.latitudeDistance (Demo.at_ 35.68)
    [Demo.routeWith "far" [Demo.signalNear "s1" 35.69]] (Some 100) = Some None.
Proof.
  apply no_route_within_threshold.
  - repeat constructor; discriminate.
  - intros r s loc Hr Hs Hl.
    apply list_elem_of_singleton in Hr. subst r.
    apply list_elem_of_singleton in Hs. subst s.
    injection Hl as <-. discriminate.
Defined.

End RouteFinderExamples.

(** ** The navigator: shape of the advice *)

Section AdviceFacts.

Local Open Scope Q_scope.

(** The recommendation logic, case by case. *)
Lemma recommend_cases (dist eta : number) (phase : SignalPhase) (ttc : number) :
  let r := Navigator.recommend dist eta phase ttc in
  (dist < 20 /\ phase = RED /\ r = (STOP, None)) \/
  (dist < 20 /\ phase <> RED /\ r = (MAINTAIN, None)) \/
  (20 <= dist /\ phase = GREEN /\ eta < ttc /\ r = (MAINTAIN, None)) \/
  (20 <= dist /\ phase = GREEN /\ ttc <= eta /\ r = (DECELERATE, None)) \/
  (20 <= dist /\ phase = RED /\ eta < ttc /\ r = (DECELERATE, Some (dist / ttc * 3.6))) \/
  (20 <= dist /\ phase = RED /\ ttc <= eta /\ r = (MAINTAIN, None)) \/
  (20 <= dist /\ phase = YELLOW /\ r = (MAINTAIN, None)).
Proof.
  unfold Navigator.recommend. cbv zeta.
  destruct (JS.lt dist 20) eqn:Hd; [apply lt_true in Hd | apply lt_false in Hd].
  - destruct phase; auto 10; right; left; repeat split; try assumption; discriminate.
  - destruct phase.
    + destruct (JS.lt eta ttc) eqn:He; [apply lt_true in He | apply lt_false in He]; auto 10.
    + auto 10.
    + destruct (JS.lt eta ttc) eqn:He; [apply lt_true in He | apply lt_false in He]; auto 10.
Qed.

(** X12.  A tick never recommends ACCELERATE; it recommends STOP only
    closer than 20 m to a RED signal; and it produces a target speed only
    together with DECELERATE, at 20 m or more from a RED signal that the
    vehicle would reach before the phase changes. *)
Theorem advice_shape calculateDistance route lastPosition navState now prev next :
  Navigator.updateNavigationLogic calculateDistance route lastPosition navState now prev
    = Navigator.SetNavState next ->
  recommendedAction next <> ACCELERATE /\
  (recommendedAction next = STOP ->
     distanceToSignal next < 20 /\ currentPhase next = RED) /\
  (forall v, targetSpeedKmh next = Some v ->
     recommendedAction next = DECELERATE /\ currentPhase next = RED /\
     20 <= distanceToSignal next /\ etaSeconds next < timeToPhaseChange next).
Proof.
  intros Htick.
  destruct (tick_inversion _ _ _ _ _ _ _ Htick) as (r & sig & _ & _ & _ & _ & Hrec & _).
  destruct (recommend_cases (distanceToSignal next) (etaSeconds next)
              (currentPhase next) (timeToPhaseChange next))
    as [H | [H | [H | [H | [H | [H | H]]]]]];
    repeat match type of H with _ /\ _ => destruct H as [? H] end;
    rewrite H in Hrec; injection Hrec as -> ->;
    (split; [discriminate |]);
    (split; [intros Hstop | intros v Hv]); try discriminate; auto.
Qed.

Lemma advice_shape_witness :
  exists next,
    Sample.tick 100 0 50000 72 = Navigator.SetNavState next /\
    recommendedAction next = DECELERATE /\
    currentPhase next = RED /\
    20 <= distanceToSignal next.
Proof.
  eexists. split; [vm_compute; reflexivity |].
  match goal with
  | |- context [recommendedAction ?n] =>
      destruct (advice_shape (Sample.constantDistance 100)
                  (Some (Sample.routeOf [Sample.signalAt 0])) (Some Sample.fix0)
                  (Sample.cruising 72) 50000 (Sample.cruising 72) n)
        as (_ & _ & Htarget); [vm_compute; reflexivity |]
  end.
  destruct (Htarget _ eq_refl) as (Hact & Hred & Hdist & _). auto.
Defined.

(** X13.  While the signal is YELLOW the tick recommends MAINTAIN and
    produces no target speed, at any distance, speed and ETA. *)
Theorem yellow_phase_rule calculateDistance route lastPosition navState now prev next :
  Navigator.updateNavigationLogic calculateDistance route lastPosition navState now prev
    = Navigator.SetNavState next ->
  currentPhase next = YELLOW ->
  recommendedAction next = MAINTAIN /\ targetSpeedKmh next = None.
Proof.
  intros Htick Hyellow.
  destruct (tick_inversion _ _ _ _ _ _ _ Htick) as (r & sig & _ & _ & _ & _ & Hrec & _).
  rewrite Hyellow in Hrec. unfold Navigator.recommend in Hrec.
  destruct (JS.lt _ 20); now injection Hrec as -> ->.
Qed.

Lemma yellow_phase_rule_witness :
  exists next,
    Sample.tick 100 0 31000 72 = Navigator.SetNavState next /\
    currentPhase next = YELLOW /\
    recommendedAction next = MAINTAIN /\
    targetSpeedKmh next = None.
Proof.
  eexists. split; [vm_compute; reflexivity |]. split; [reflexivity |].
  apply (yellow_phase_rule (Sample.constantDistance 100)
           (Some (Sample.routeOf [Sample.signalAt 0])) (Some Sample.fix0)
           (Sample.cruising 72) 31000 (Sample.cruising 72));
    [vm_compute; reflexivity | reflexivity].
Defined.

End AdviceFacts.

(** ** The navigator: signals without location *)

Section ThrowFacts.

Local Open Scope Q_scope.

(** The loop dies exactly when the list holds a signal without location. *)
Lemma nearestLoop_throws calculateDistance userLoc signals nearest minDist :
  Navigator.nearestLoop calculateDistance userLoc signals nearest minDist = None <->
  exists s, s ∈ signals /\ Signal.location s = None.
Proof.
  revert nearest minDist. induction signals as [| sig rest IH]; intros nearest minDist; simpl.
  - split; [discriminate |]. intros (s & Hs & _). inversion Hs.
  - destruct (Signal.location sig) as [loc |] eqn:Hloc.
    + destruct (JS.ltInf _ minDist); rewrite IH; split.
      all: try (intros (s & Hs & Hn); exists s; split; [now right | exact Hn]).
      all: intros (s & Hs & Hn); apply elem_of_cons in Hs as [-> | Hs];
        [congruence | eauto].
    + split; [| reflexivity]. intros _. exists sig. split; [left | exact Hloc].
Qed.

(** X17.  With a loaded route and a position fix, a tick dies on a
    [TypeError] exactly when the route holds a signal without location;
    [navState] is then never refreshed for that route, however close or
    far the other signals are. *)
Theorem tick_throws_iff_signal_without_location
    calculateDistance (r : Route) (last : Navigator.Position) navState now prev :
  Navigator.updateNavigationLogic calculateDistance (Some r) (Some last) navState now prev
    = Navigator.Throw
  <-> exists s, s ∈ Route.signals r /\ Signal.location s = None.
Proof.
  unfold Navigator.updateNavigationLogic.
  destruct (Route.signals r) as [| first rest] eqn:Hsigs.
  - split; [discriminate |]. intros (s & Hs & _). inversion Hs.
  - rewrite <- (nearestLoop_throws calculateDistance
                  {| latitude := Navigator.lat last; longitude := Navigator.lng last |}
                  (first :: rest) first None).
    destruct (Navigator.nearestLoop _ _ _ _ _) as [[nearestSignal [minDist |]] |].
    + destruct (Navigator.phaseAt _ _) as [[cur ttc] nxt].
      destruct (Navigator.recommend _ _ _ _) as [action target].
      split; discriminate.
    + split; discriminate.
    + split; reflexivity.
Qed.

(** X18.  A signal recorded while no position fix is available has no
    location, and every later tick on a route that holds the signals of
    that recorder dies on a [TypeError]. *)
Theorem signal_recorded_without_fix_disables_route
    calculateDistance (st : SignalRecorder.State) now uuid createdAt
    (r : Route) (last : Navigator.Position) navState now' prev :
  SignalRecorder.signalPhase st = SignalRecorder.RED ->
  Route.signals r
    = SignalRecorder.recordedSignals
        (SignalRecorder.handleSignalPress None now uuid createdAt st) ->
  Navigator.updateNavigationLogic calculateDistance (Some r) (Some last) navState now' prev
    = Navigator.Throw.
Proof.
  intros Hred Hsigs.
  destruct (press_in_red None now uuid createdAt st Hred)
    as (s & Hs & _ & _ & _ & _ & _ & Hloc & _).
  assert (Hin : s ∈ Route.signals r)
    by (rewrite Hsigs, Hs; apply elem_of_app; right; left).
  unfold Navigator.updateNavigationLogic.
  destruct (Route.signals r) as [| first rest] eqn:E; [inversion Hin |].
  replace (Navigator.nearestLoop calculateDistance
             {| latitude := Navigator.lat last; longitude := Navigator.lng last |}
             (first :: rest) first None) with (@None (Signal * option number));
    [reflexivity |].
  symmetry. apply nearestLoop_throws. eauto.
Qed.

Lemma signal_recorded_without_fix_disables_route_witness :
  Navigator.updateNavigationLogic (Sample.constantDistance 100)
    (Some (snd (SignalRecorder.finishRoute 60000
                  (SignalRecorder.handleSignalPress None 58000 "b" 58000
                     (SignalRecorder.run
                        [SignalRecorder.Press None 0 "a" 0;
                         SignalRecorder.Release 28000;
                         SignalRecorder.TimerExpires 31000] Sample.recording)))))
    (Some Sample.fix0) (Sample.cruising 54) 90000 (Sample.cruising 54)
  = Navigator.Throw.
Proof.
  apply (signal_recorded_without_fix_disables_route (Sample.constantDistance 100)
           (SignalRecorder.run
              [SignalRecorder.Press None 0 "a" 0;
               SignalRecorder.Release 28000;
               SignalRecorder.TimerExpires 31000] Sample.recording)
           58000 "b" 58000);
    reflexivity.
Defined.

End ThrowFacts.

(** ** The mounted navigator *)

Section ComponentFacts.

Local Open Scope Q_scope.

Variable calculateDistance : Coordinate -> Coordinate -> number.

(** What the ring buffer and the displayed speed are after a position
    update. *)
Lemma handlePositionUpdate_window coords now refs prev :
  exists sample,
    Navigator.speedHistory
      (fst (Navigator.handlePositionUpdate calculateDistance coords now refs prev))
    = NavigatorComponent.pushSample (Navigator.speedHistory refs) sample /\
    currentSpeedKmh (snd (Navigator.handlePositionUpdate calculateDistance coords now refs prev))
    = NavigatorComponent.displaySpeed
        (NavigatorComponent.pushSample (Navigator.speedHistory refs) sample) /\
    targetSignalId (snd (Navigator.handlePositionUpdate calculateDistance coords now refs prev))
    = targetSignalId prev /\
    ((forall a b, 0 <= calculateDistance a b) -> 0 <= sample).
Proof.
  unfold Navigator.handlePositionUpdate. cbv zeta. simpl.
  eexists. split; [reflexivity |]. split; [reflexivity |]. split; [reflexivity |].
  intros Hnonneg. destruct (Navigator.lastPosition refs) as [last |]; [| apply Qle_refl].
  destruct (JS.lt 0 _) eqn:Hdt; [| apply Qle_refl].
  apply lt_true in Hdt. apply Qle_shift_div_l; [exact Hdt |].
  rewrite Qmult_0_l. apply Hnonneg.
Qed.

Lemma pushSample_length (history : list number) (sample : number) :
  (length history <= 5)%nat ->
  (length (NavigatorComponent.pushSample history sample) <= 5)%nat.
Proof.
  intros H. unfold NavigatorComponent.pushSample. cbv zeta.
  assert (Hlen : length (history ++ [sample]) = S (length history))
    by (rewrite length_app; simpl; lia).
  destruct (5 <? length (history ++ [sample]))%nat eqn:E.
  - destruct (history ++ [sample]); simpl in *; lia.
  - apply Nat.ltb_ge in E. exact E.
Qed.

(** The invariant of the mounted navigator. *)
Lemma step_invariant (c : NavigatorComponent.Component) (ev : NavigatorComponent.Event) :
  (length (Navigator.speedHistory (NavigatorComponent.refs c)) <= 5)%nat /\
  currentSpeedKmh (NavigatorComponent.navState c)
    == NavigatorComponent.displaySpeed (Navigator.speedHistory (NavigatorComponent.refs c)) /\
  targetSignalId (NavigatorComponent.navState c) = None ->
  let c' := NavigatorComponent.step calculateDistance c ev in
  (length (Navigator.speedHistory (NavigatorComponent.refs c')) <= 5)%nat /\
  currentSpeedKmh (NavigatorComponent.navState c')
    == NavigatorComponent.displaySpeed (Navigator.speedHistory (NavigatorComponent.refs c')) /\
  targetSignalId (NavigatorComponent.navState c') = None.
Proof.
  intros (Hlen & Hspeed & Htarget).
  destruct ev as [storage | coords now | now]; cbv zeta; unfold NavigatorComponent.step.
  - destruct (StorageService.getRouteById _ _); simpl; auto.
  - destruct (handlePositionUpdate_window coords now (NavigatorComponent.refs c)
                (NavigatorComponent.navState c)) as (sample & Hw & Hs & Ht & _).
    destruct (Navigator.handlePositionUpdate _ _ _ _ _) as [refs' next]. simpl in *.
    rewrite Hw, Hs, Ht. split; [now apply pushSample_length |]. split; [reflexivity | exact Htarget].
  - destruct (Navigator.updateNavigationLogic _ _ _ _ _ _) as [| | next] eqn:Htick; simpl; auto.
    destruct (tick_inversion _ _ _ _ _ _ _ Htick) as (r & sig & _ & _ & _ & _ & _ & Hkeep & Hid).
    rewrite Hkeep, Hid. auto.
Qed.

(** The invariant along any sequence of events. *)
Lemma navigator_run_invariant (evs : list NavigatorComponent.Event)
    (c : NavigatorComponent.Component) :
  ((length (Navigator.speedHistory (NavigatorComponent.refs c)) <= 5)%nat /\
   currentSpeedKmh (NavigatorComponent.navState c)
     == NavigatorComponent.displaySpeed (Navigator.speedHistory (NavigatorComponent.refs c)) /\
   targetSignalId (NavigatorComponent.navState c) = None) ->
  let c' := NavigatorComponent.run calculateDistance evs c in
  (length (Navigator.speedHistory (NavigatorComponent.refs c')) <= 5)%nat /\
  currentSpeedKmh (NavigatorComponent.navState c')
    == NavigatorComponent.displaySpeed (Navigator.speedHistory (NavigatorComponent.refs c')) /\
  targetSignalId (NavigatorComponent.navState c') = None.
Proof.
  revert c. induction evs as [| ev evs IH]; intros c H; simpl; [exact H |].
  apply IH. now apply step_invariant.
Qed.

Lemma mount_invariant (routeId : string) :
  (length (Navigator.speedHistory
             (NavigatorComponent.refs (NavigatorComponent.mount routeId))) <= 5)%nat /\
  currentSpeedKmh (NavigatorComponent.navState (NavigatorComponent.mount routeId))
    == NavigatorComponent.displaySpeed
         (Navigator.speedHistory (NavigatorComponent.refs (NavigatorComponent.mount routeId))) /\
  targetSignalId (NavigatorComponent.navState (NavigatorComponent.mount routeId)) = None.
Proof. simpl. split; [lia |]. split; reflexivity. Qed.



(** Ticks change neither the ring buffer nor the state the interval
    callback has closed over. *)
Lemma ticks_keep_closure (nows : list number) (c : NavigatorComponent.Component) :
  let c' := NavigatorComponent.run calculateDistance
              (NavigatorComponent.IntervalFires <$> nows) c in
  NavigatorComponent.captured c' = NavigatorComponent.captured c /\
  NavigatorComponent.refs c' = NavigatorComponent.refs c.
Proof.
  revert c. induction nows as [| now nows IH]; intros c; [split; reflexivity |].
  change (NavigatorComponent.run calculateDistance
            (NavigatorComponent.IntervalFires <$> now :: nows) c)
    with (NavigatorComponent.run calculateDistance
            (NavigatorComponent.IntervalFires <$> nows)
            (NavigatorComponent.step calculateDistance c
               (NavigatorComponent.IntervalFires now))).
  destruct (IH (NavigatorComponent.step calculateDistance c
                  (NavigatorComponent.IntervalFires now))) as [Hc Hr].
  cbv zeta. rewrite Hc, Hr. unfold NavigatorComponent.step.
  destruct (Navigator.updateNavigationLogic _ _ _ _ _ _); split; reflexivity.
Qed.

(** X20.  The speed of the advice lags one position fix behind the speed
    displayed.  After a position fix the displayed speed is computed from
    the window that includes the new sample, while every tick until the
    next fix (or route load) works with the speed of the window before
    that sample: the interval callback keeps the [navState] of the render
    in which the fix arrived. *)
Theorem advice_speed_lags_one_fix (routeId : string) (evs : list NavigatorComponent.Event)
    (coords : number * number) (now : number) (nows : list number) :
  let before := NavigatorComponent.run calculateDistance evs (NavigatorComponent.mount routeId) in
  let fixed := NavigatorComponent.step calculateDistance before
                 (NavigatorComponent.LocationChanged coords now) in
  let after := NavigatorComponent.run calculateDistance
                 (NavigatorComponent.IntervalFires <$> nows) fixed in
  currentSpeedKmh (NavigatorComponent.captured after)
    == NavigatorComponent.displaySpeed
         (Navigator.speedHistory (NavigatorComponent.refs before)) /\
  currentSpeedKmh (NavigatorComponent.navState after)
    == NavigatorComponent.displaySpeed
         (Navigator.speedHistory (NavigatorComponent.refs after)) /\
  exists sample,
    Navigator.speedHistory (NavigatorComponent.refs after)
    = NavigatorComponent.pushSample
        (Navigator.speedHistory (NavigatorComponent.refs before)) sample.
Proof.
  intros before fixed after.
  destruct (navigator_run_invariant evs _ (mount_invariant routeId)) as (_ & Hbefore & _).
  fold before in Hbefore.
  destruct (navigator_run_invariant
              (evs ++ NavigatorComponent.LocationChanged coords now
                      :: (NavigatorComponent.IntervalFires <$> nows))
              _ (mount_invariant routeId))
    as (_ & Hafter & _).
  unfold NavigatorComponent.run in Hafter. rewrite fold_left_app in Hafter. simpl in Hafter.
  destruct (ticks_keep_closure nows fixed) as [Hc Hr]. fold after in Hc, Hr.
  split; [| split].
  - rewrite Hc. subst fixed. unfold NavigatorComponent.step.
    destruct (Navigator.handlePositionUpdate _ _ _ _ _). simpl. exact Hbefore.
  - exact Hafter.
  - rewrite Hr. subst fixed. unfold NavigatorComponent.step.
    destruct (handlePositionUpdate_window coords now (NavigatorComponent.refs before)
                (NavigatorComponent.navState before)) as (sample & Hw & _).
    destruct (Navigator.handlePositionUpdate _ _ _ _ _). simpl in *. eauto.
Qed.

End ComponentFacts.

(** ** The cycle recorder over whole runs *)

Section RecorderRuns.

Local Open Scope Q_scope.

Import SignalRecorder.

(** X21.  In every state a fresh recorder can reach, the yellow duration
    is the initial 3 s and a timer is pending exactly while the phase is
    YELLOW, with a delay of 3000 ms: a timer expiry never meets another
    phase, and RED is only entered from YELLOW. *)
Theorem timer_pending_iff_yellow (routeId : string) (evs : list Event) :
  let st := run evs (initialState routeId) in
  yellowDuration st = 3 /\
  (signalPhase st = YELLOW -> timers st = [3 * 1000]) /\
  (signalPhase st <> YELLOW -> timers st = []).
Proof.
  assert (Hstep : forall st ev,
            (yellowDuration st = 3 /\
             (signalPhase st = YELLOW -> timers st = [3 * 1000]) /\
             (signalPhase st <> YELLOW -> timers st = [])) ->
            yellowDuration (step st ev) = 3 /\
            (signalPhase (step st ev) = YELLOW -> timers (step st ev) = [3 * 1000]) /\
            (signalPhase (step st ev) <> YELLOW -> timers (step st ev) = [])).
  { intros st ev (Hy & Hyes & Hno).
    assert (Hcase : signalPhase st = YELLOW /\ timers st = [3 * 1000] \/
                    signalPhase st <> YELLOW /\ timers st = []).
    { destruct (signalPhase st);
        [right | right | left | right];
        (split; [first [reflexivity | discriminate] | auto]);
        apply Hno; discriminate. }
    clear Hyes Hno.
    destruct ev as [loc now uuid createdAt | now | now]; simpl.
    - unfold handleSignalPress.
      destruct (signalPhase st) eqn:E; simpl; rewrite ?E;
        destruct Hcase as [[H1 H2] | [H1 H2]]; try discriminate H1; try congruence;
        (split; [exact Hy |]); split; intros H;
        first [discriminate H | assumption | congruence].
    - unfold handleSignalRelease.
      destruct (signalPhase st) eqn:E; simpl; rewrite ?E;
        destruct Hcase as [[H1 H2] | [H1 H2]]; try discriminate H1; try congruence;
        (split; [exact Hy |]); split; intros H;
        first [discriminate H | assumption | congruence | idtac].
      rewrite H2, Hy. reflexivity.
    - destruct (timers st) as [| d pending] eqn:Ht.
      + split; [exact Hy |].
        destruct Hcase as [[H1 H2] | [H1 H2]]; [discriminate H2 |].
        split; intros H; [contradiction | exact Ht].
      + simpl. split; [exact Hy |]. split; [intros H; discriminate H |]. intros _.
        destruct Hcase as [[H1 H2] | [H1 H2]]; [| discriminate H2].
        now injection H2 as _ <-. }
  assert (Hrun : forall evs st,
            (yellowDuration st = 3 /\
             (signalPhase st = YELLOW -> timers st = [3 * 1000]) /\
             (signalPhase st <> YELLOW -> timers st = [])) ->
            yellowDuration (run evs st) = 3 /\
            (signalPhase (run evs st) = YELLOW -> timers (run evs st) = [3 * 1000]) /\
            (signalPhase (run evs st) <> YELLOW -> timers (run evs st) = [])).
  { induction evs0 as [| ev evs0 IH]; intros st H; simpl; [exact H |]. now apply IH, Hstep. }
  apply Hrun. simpl. split; [reflexivity |]. split; [intros H; discriminate H | reflexivity].
Qed.

Lemma timer_pending_iff_yellow_witness :
  timers (run [Press None 0 "a" 0; Release 28000] (initialState "r1")) = [3 * 1000] /\
  timers (run [Press None 0 "a" 0; Release 28000; TimerExpires 31000] (initialState "r1")) = [].
Proof.
  split.
  - destruct (timer_pending_iff_yellow "r1" [Press None 0 "a" 0; Release 28000])
      as (_ & H & _). now apply H.
  - destruct (timer_pending_iff_yellow "r1"
                [Press None 0 "a" 0; Release 28000; TimerExpires 31000])
      as (_ & _ & H). apply H. discriminate.
Defined.

(** What a handler does to the list of recorded signals: nothing, or it
    appends one signal, named after its position. *)
Lemma step_appends_named st ev :
  recordedSignals (step st ev) = recordedSignals st \/
  exists s,
    recordedSignals (step st ev) = recordedSignals st ++ [s] /\
    Signal.name s = "Signal #" +:+ pretty (length (recordedSignals st) + 1)%nat.
Proof.
  destruct ev as [loc now uuid createdAt | now | now]; simpl.
  - unfold handleSignalPress. destruct (signalPhase st); simpl; auto.
    right. eexists. split; reflexivity.
  - left. unfold handleSignalRelease. now destruct (signalPhase st).
  - left. now destruct (timers st).
Qed.

(** X22.  The signals of a recording are numbered in the order of their
    completion: the signal at position [i] of the list is named
    "Signal #(i+1)". *)
Theorem signal_names_are_sequential (routeId : string) (evs : list Event) (i : nat) (s : Signal) :
  recordedSignals (run evs (initialState routeId)) !! i = Some s ->
  Signal.name s = "Signal #" +:+ pretty (i + 1)%nat.
Proof.
  assert (Hrun : forall evs st,
            (forall i s, recordedSignals st !! i = Some s ->
                         Signal.name s = "Signal #" +:+ pretty (i + 1)%nat) ->
            forall i s, recordedSignals (run evs st) !! i = Some s ->
                        Signal.name s = "Signal #" +:+ pretty (i + 1)%nat).
  { induction evs0 as [| ev evs0 IH]; intros st Hst; simpl; [exact Hst |].
    apply IH. intros j x Hj.
    destruct (step_appends_named st ev) as [E | (new & E & Hname)]; rewrite E in Hj.
    - now apply Hst.
    - apply lookup_app_Some in Hj as [Hj | [Hlen Hj]]; [now apply Hst |].
      apply list_lookup_singleton_Some in Hj as [Hj <-].
      rewrite Hname. do 2 f_equal. lia. }
  apply Hrun. intros j x Hj. discriminate Hj.
Qed.

Lemma signal_names_are_sequential_witness :
  Signal.name
    {| Signal.id := "d";
       Signal.name := "Signal #2";
       Signal.location := None;
       Signal.cycle :=
         {| SignalCycle.greenDuration := (38000 - 30000) / 1000;
            SignalCycle.yellowDuration := 3;
            SignalCycle.redDuration := (50000 - 41000) / 1000;
            SignalCycle.totalDuration :=
              (38000 - 30000) / 1000 + 3 + (50000 - 41000) / 1000 |};
       Signal.referenceTimestamp := 30000;
       Signal.createdAt := 50000 |}
  = "Signal #" +:+ pretty (1 + 1)%nat.
Proof.
  apply (signal_names_are_sequential "r1"
           [Press None 0 "a" 0; Release 8000; TimerExpires 11000; Press None 20000 "b" 20000;
            Press None 30000 "c" 30000; Release 38000; TimerExpires 41000;
            Press None 50000 "d" 50000] 1).
  reflexivity.
Defined.

Lemma div_1000_pos (x : number) : 0 < x -> 0 < x / 1000.
Proof. intros H. apply Qlt_shift_div_l; [reflexivity |]. now rewrite Qmult_0_l. Qed.

(** The invariant behind X23: [t] is the latest clock reading. *)
Lemma increasing_step (st : State) (t : number) (ev : Event) :
  t < RecorderSession.eventTime ev ->
  (yellowDuration st = 3 /\
   Forall (fun s => validCycle (Signal.cycle s)) (recordedSignals st) /\
   match signalPhase st with
   | WAITING_GREEN => timers st = []
   | GREEN => timers st = [] /\ greenStart (cycleData st) <= t
   | YELLOW =>
       timers st <> [] /\ length (timers st) = 1%nat /\
       greenStart (cycleData st) < greenEnd (cycleData st) /\ greenEnd (cycleData st) <= t
   | RED =>
       timers st = [] /\
       greenStart (cycleData st) < greenEnd (cycleData st) /\ redStart (cycleData st) <= t
   end) ->
  let st' := step st ev in
  let t' := RecorderSession.eventTime ev in
  yellowDuration st' = 3 /\
  Forall (fun s => validCycle (Signal.cycle s)) (recordedSignals st') /\
  match signalPhase st' with
  | WAITING_GREEN => timers st' = []
  | GREEN => timers st' = [] /\ greenStart (cycleData st') <= t'
  | YELLOW =>
      timers st' <> [] /\ length (timers st') = 1%nat /\
      greenStart (cycleData st') < greenEnd (cycleData st') /\ greenEnd (cycleData st') <= t'
  | RED =>
      timers st' = [] /\
      greenStart (cycleData st') < greenEnd (cycleData st') /\ redStart (cycleData st') <= t'
  end.
Proof.
  intros Ht (Hy & Hvalid & Hphase).
  destruct ev as [loc now uuid createdAt | now | now]; simpl in Ht; simpl.
  - unfold handleSignalPress. destruct (signalPhase st) eqn:E; simpl.
    + split; [exact Hy |]. split; [exact Hvalid |]. split; [exact Hphase | apply Qle_refl].
    + rewrite E. split; [exact Hy |]. split; [exact Hvalid |].
      destruct Hphase as [H1 H2]. split; [exact H1 | lra].
    + rewrite E. split; [exact Hy |]. split; [exact Hvalid |].
      destruct Hphase as (H1 & H2 & H3 & H4). repeat split; try assumption. lra.
    + destruct Hphase as (H1 & H2 & H3).
      split; [exact Hy |]. split; [| exact H1].
      apply Forall_app. split; [exact Hvalid |]. constructor; [| constructor].
      unfold validCycle. simpl. rewrite Hy.
      split; [apply div_1000_pos; lra |]. split; [reflexivity |].
      split; [apply div_1000_pos; lra | reflexivity].
  - unfold handleSignalRelease. destruct (signalPhase st) eqn:E; simpl.
    + rewrite E. split; [exact Hy |]. split; [exact Hvalid | exact Hphase].
    + destruct Hphase as [H1 H2]. split; [exact Hy |]. split; [exact Hvalid |].
      rewrite H1. simpl. repeat split; try discriminate; try apply Qle_refl. lra.
    + rewrite E. split; [exact Hy |]. split; [exact Hvalid |].
      destruct Hphase as (H1 & H2 & H3 & H4). repeat split; try assumption. lra.
    + rewrite E. split; [exact Hy |]. split; [exact Hvalid |].
      destruct Hphase as (H1 & H2 & H3). repeat split; try assumption. lra.
  - destruct (timers st) as [| d pending] eqn:Htimers.
    + split; [exact Hy |]. split; [exact Hvalid |].
      destruct (signalPhase st) eqn:E.
      * exact Htimers.
      * destruct Hphase as [_ H2]. split; [exact Htimers | lra].
      * destruct Hphase as (H1 & _). congruence.
      * destruct Hphase as (_ & H2 & H3). repeat split; try assumption. lra.
    + destruct (signalPhase st) eqn:E.
      * discriminate Hphase.
      * destruct Hphase as [H1 _]. discriminate H1.
      * destruct Hphase as (_ & Hlen & H3 & H4). simpl.
        split; [exact Hy |]. split; [exact Hvalid |].
        destruct pending; [| discriminate Hlen].
        repeat split; try assumption. apply Qle_refl.
      * destruct Hphase as [H1 _]. discriminate H1.
Qed.

(** X23.  When the clock readings of the events increase strictly, every
    signal a fresh recorder records has a valid cycle: strictly positive
    green, yellow and red durations and their sum as total. *)
Theorem increasing_clock_gives_valid_cycles (routeId : string) (evs : list Event) (t0 : number) :
  RecorderSession.clockIncreases t0 evs ->
  Forall (fun s => validCycle (Signal.cycle s))
    (recordedSignals (run evs (initialState routeId))).
Proof.
  assert (Hrun : forall evs st t,
            RecorderSession.clockIncreases t evs ->
            (yellowDuration st = 3 /\
             Forall (fun s => validCycle (Signal.cycle s)) (recordedSignals st) /\
             match signalPhase st with
             | WAITING_GREEN => timers st = []
             | GREEN => timers st = [] /\ greenStart (cycleData st) <= t
             | YELLOW =>
                 timers st <> [] /\ length (timers st) = 1%nat /\
                 greenStart (cycleData st) < greenEnd (cycleData st) /\
                 greenEnd (cycleData st) <= t
             | RED =>
                 timers st = [] /\
                 greenStart (cycleData st) < greenEnd (cycleData st) /\
                 redStart (cycleData st) <= t
             end) ->
            Forall (fun s => validCycle (Signal.cycle s)) (recordedSignals (run evs st))).
  { induction evs0 as [| ev evs0 IH]; intros st t Hclock Hinv; simpl.
    - now destruct Hinv as (_ & H & _).
    - destruct Hclock as [Hlt Hrest].
      apply (IH _ _ Hrest). exact (increasing_step st t ev Hlt Hinv). }
  intros Hclock. apply (Hrun evs _ t0 Hclock).
  simpl. split; [reflexivity |]. split; [constructor | reflexivity].
Qed.

Lemma increasing_clock_gives_valid_cycles_witness :
  Forall (fun s => validCycle (Signal.cycle s))
    (recordedSignals
       (run [Press None 0 "a" 0; Release 28000; TimerExpires 31000; Press None 58000 "b" 58000]
            (initialState "r1"))).
Proof.
  apply (increasing_clock_gives_valid_cycles "r1" _ (-1)).
  simpl. repeat split.
Defined.

End RecorderRuns.

(** ** The recording session *)

Section SessionFacts.

Local Open Scope Q_scope.

Variable trim : string -> string.

(** A recorder handler keeps the route id, the route name and the path,
    only extends the list of signals, and leaves the UI phase or sets it
    to DRIVING. *)
Lemma recorder_step_frame (st : SignalRecorder.State) (ev : SignalRecorder.Event) :
  SignalRecorder.routeId (SignalRecorder.step st ev) = SignalRecorder.routeId st /\
  SignalRecorder.routeName (SignalRecorder.step st ev) = SignalRecorder.routeName st /\
  SignalRecorder.recordedPath (SignalRecorder.step st ev) = SignalRecorder.recordedPath st /\
  SignalRecorder.recordedSignals st
    `prefix_of` SignalRecorder.recordedSignals (SignalRecorder.step st ev) /\
  (SignalRecorder.uiPhase (SignalRecorder.step st ev) = SignalRecorder.uiPhase st \/
   SignalRecorder.uiPhase (SignalRecorder.step st ev) = SignalRecorder.DRIVING).
Proof.
  destruct ev as [loc now uuid createdAt | now | now]; simpl.
  - unfold SignalRecorder.handleSignalPress.
    destruct (SignalRecorder.signalPhase st); simpl; repeat split; auto.
    now apply prefix_app_r.
  - unfold SignalRecorder.handleSignalRelease.
    destruct (SignalRecorder.signalPhase st); simpl; repeat split; auto.
  - destruct (SignalRecorder.timers st); simpl; repeat split; auto.
Qed.

(** One event extends the path and the signals. *)
Lemma session_step_grows (s : RecorderSession.Session) (ev : RecorderSession.UiEvent) :
  SignalRecorder.recordedPath (RecorderSession.recorder s)
    `prefix_of` SignalRecorder.recordedPath
                  (RecorderSession.recorder (RecorderSession.step trim s ev)) /\
  SignalRecorder.recordedSignals (RecorderSession.recorder s)
    `prefix_of` SignalRecorder.recordedSignals
                  (RecorderSession.recorder (RecorderSession.step trim s ev)).
Proof.
  unfold RecorderSession.step. destruct (RecorderSession.mounted s); [| split; reflexivity].
  cbv zeta.
  destruct ev as [value | | timeString | | [loc now uuid createdAt | now | now]
                  | userLocation now | createdAt].
  - destruct (SignalRecorder.uiPhase _); split; reflexivity.
  - destruct (SignalRecorder.uiPhase _); split; reflexivity.
  - destruct (SignalRecorder.uiPhase _); try (split; reflexivity).
    unfold RecorderSession.startRoute. destruct (String.eqb _ _); split; reflexivity.
  - destruct (SignalRecorder.uiPhase _); split; reflexivity.
  - destruct (RecorderSession.overlayShown _); [| split; reflexivity].
    destruct (recorder_step_frame (RecorderSession.recorder s)
                (SignalRecorder.Press loc now uuid createdAt)) as (_ & _ & Hp & Hs & _).
    unfold RecorderSession.withRecorder. cbn [RecorderSession.recorder].
    rewrite Hp. split; [reflexivity | exact Hs].
  - destruct (RecorderSession.overlayShown _); [| split; reflexivity].
    destruct (recorder_step_frame (RecorderSession.recorder s)
                (SignalRecorder.Release now)) as (_ & _ & Hp & Hs & _).
    unfold RecorderSession.withRecorder. cbn [RecorderSession.recorder].
    rewrite Hp. split; [reflexivity | exact Hs].
  - destruct (recorder_step_frame (RecorderSession.recorder s)
                (SignalRecorder.TimerExpires now)) as (_ & _ & Hp & Hs & _).
    unfold RecorderSession.withRecorder. cbn [RecorderSession.recorder].
    rewrite Hp. split; [reflexivity | exact Hs].
  - destruct (RecorderSession.pathTracked _); [| split; reflexivity].
    destruct userLocation as [location |]; simpl; [| split; reflexivity].
    split; [now apply prefix_app_r | reflexivity].
  - destruct (SignalRecorder.uiPhase _); split; reflexivity.
Qed.

(** One event keeps a session consistent. *)
Lemma session_step_consistent (rid : string) (s : RecorderSession.Session)
    (ev : RecorderSession.UiEvent) :
  RecorderSession.consistent rid s ->
  RecorderSession.consistent rid (RecorderSession.step trim s ev).
Proof.
  intros Hs. pose proof Hs as (Hid & Hquiet & Hprev & Hhand).
  cbv zeta in Hid, Hquiet, Hprev, Hhand.
  unfold RecorderSession.step.
  destruct (RecorderSession.mounted s) eqn:Hm; [| exact Hs]. cbv zeta.
  assert (Hnone : RecorderSession.handedOver s = None).
  { destruct (RecorderSession.handedOver s) as [r |] eqn:E; [| reflexivity].
    destruct (Hhand r eq_refl) as [H _]. congruence. }
  (* a changed recorder that is out of INIT_ROUTE, same path, longer signals *)
  assert (Hmove : forall st',
            SignalRecorder.routeId st' = SignalRecorder.routeId (RecorderSession.recorder s) ->
            SignalRecorder.recordedPath st'
              = SignalRecorder.recordedPath (RecorderSession.recorder s) ->
            SignalRecorder.recordedSignals (RecorderSession.recorder s)
              `prefix_of` SignalRecorder.recordedSignals st' ->
            SignalRecorder.uiPhase st' <> SignalRecorder.INIT_ROUTE ->
            RecorderSession.consistent rid (RecorderSession.withRecorder st' s)).
  { intros st' Hi Hp Hg Hu. unfold RecorderSession.consistent, RecorderSession.withRecorder.
    cbn [RecorderSession.recorder RecorderSession.preview RecorderSession.handedOver
         RecorderSession.mounted].
    split; [congruence |]. split; [intros U; contradiction |]. split.
    - intros p Hpv. destruct (Hprev p Hpv) as (H1 & H2 & H3).
      split; [exact H1 |]. split; [now rewrite Hp | now transitivity
        (SignalRecorder.recordedSignals (RecorderSession.recorder s))].
    - intros r Hr. congruence. }
  destruct ev as [value | | timeString | | [loc now uuid createdAt | now | now]
                  | userLocation now | createdAt].
  - (* the name input *)
    destruct (SignalRecorder.uiPhase (RecorderSession.recorder s)) eqn:U; try exact Hs.
    destruct (Hquiet eq_refl) as (Q1 & Q2 & Q3 & Q4 & Q5 & Q6).
    unfold RecorderSession.consistent, RecorderSession.withRecorder. simpl.
    rewrite Q5, Q6. split; [exact Hid |]. split; [intros _; repeat split; assumption |].
    split; intros x Hx; discriminate Hx.
  - (* Cancel *)
    destruct (SignalRecorder.uiPhase (RecorderSession.recorder s)) eqn:U; try exact Hs.
    destruct (Hquiet eq_refl) as (Q1 & Q2 & Q3 & Q4 & Q5 & Q6).
    unfold RecorderSession.consistent. simpl.
    rewrite Q5, Q6. split; [exact Hid |]. split; [intros _; repeat split; assumption |].
    split; intros x Hx; discriminate Hx.
  - (* Start Driving *)
    destruct (SignalRecorder.uiPhase (RecorderSession.recorder s)) eqn:U; try exact Hs.
    apply Hmove; unfold RecorderSession.startRoute; destruct (String.eqb _ _);
      simpl; try reflexivity; discriminate.
  - (* Record Signal Here *)
    destruct (SignalRecorder.uiPhase (RecorderSession.recorder s)) eqn:U; try exact Hs.
    apply Hmove; simpl; try reflexivity; discriminate.
  - (* press on the overlay *)
    destruct (RecorderSession.overlayShown _) eqn:O; [| exact Hs].
    destruct (recorder_step_frame (RecorderSession.recorder s)
                (SignalRecorder.Press loc now uuid createdAt)) as (F1 & _ & F3 & F4 & F5).
    apply Hmove; try assumption.
    destruct (SignalRecorder.uiPhase (RecorderSession.recorder s)) eqn:U;
      try discriminate O; destruct F5 as [-> | ->]; discriminate.
  - (* release on the overlay *)
    destruct (RecorderSession.overlayShown _) eqn:O; [| exact Hs].
    destruct (recorder_step_frame (RecorderSession.recorder s)
                (SignalRecorder.Release now)) as (F1 & _ & F3 & F4 & F5).
    apply Hmove; try assumption.
    destruct (SignalRecorder.uiPhase (RecorderSession.recorder s)) eqn:U;
      try discriminate O; destruct F5 as [-> | ->]; discriminate.
  - (* timer expiry *)
    destruct (SignalRecorder.uiPhase (RecorderSession.recorder s)) eqn:U.
    + destruct (Hquiet eq_refl) as (Q1 & Q2 & Q3 & Q4 & Q5 & Q6).
      replace (SignalRecorder.step (RecorderSession.recorder s)
                 (SignalRecorder.TimerExpires now))
        with (RecorderSession.recorder s) by (simpl; now rewrite Q4).
      now destruct s.
    + destruct (recorder_step_frame (RecorderSession.recorder s)
                  (SignalRecorder.TimerExpires now)) as (F1 & _ & F3 & F4 & F5).
      apply Hmove; try assumption. rewrite U in F5. destruct F5 as [-> | ->]; discriminate.
    + destruct (recorder_step_frame (RecorderSession.recorder s)
                  (SignalRecorder.TimerExpires now)) as (F1 & _ & F3 & F4 & F5).
      apply Hmove; try assumption. rewrite U in F5. destruct F5 as [-> | ->]; discriminate.
    + destruct (recorder_step_frame (RecorderSession.recorder s)
                  (SignalRecorder.TimerExpires now)) as (F1 & _ & F3 & F4 & F5).
      apply Hmove; try assumption. rewrite U in F5. destruct F5 as [-> | ->]; discriminate.
  - (* the path interval *)
    destruct (RecorderSession.pathTracked _) eqn:T; [| exact Hs].
    destruct userLocation as [location |]; simpl; [| now destruct s].
    unfold RecorderSession.consistent. simpl.
    split; [exact Hid |]. split.
    { intros U. rewrite U in T. discriminate T. }
    split.
    + intros p [= <-]. simpl. split; [exact Hid |]. split; reflexivity.
    + intros r Hr. congruence.
  - (* Finish *)
    destruct (SignalRecorder.uiPhase (RecorderSession.recorder s)) eqn:U; try exact Hs;
      unfold RecorderSession.consistent; simpl;
      (split; [exact Hid |]); (split; [intros H; discriminate H |]);
      (split; [exact Hprev |]); intros r [= <-]; simpl; repeat split; auto.
Qed.

Lemma session_run_consistent (rid : string) (evs : list RecorderSession.UiEvent)
    (s : RecorderSession.Session) :
  RecorderSession.consistent rid s ->
  RecorderSession.consistent rid (RecorderSession.run trim evs s).
Proof.
  revert s. induction evs as [| ev evs IH]; intros s Hs; simpl; [exact Hs |].
  now apply IH, session_step_consistent.
Qed.

Lemma session_open_consistent (rid : string) :
  RecorderSession.consistent rid (RecorderSession.open rid).
Proof.
  unfold RecorderSession.consistent. simpl.
  split; [reflexivity |]. split; [intros _; repeat split |].
  split; intros x Hx; discriminate Hx.
Qed.

(** X24.  During a recording session the path and the list of signals only
    grow at their end: what was recorded after some events is a prefix of
    what is recorded after any further events; and the route shown as live
    preview carries the session's route id and never a path point or a
    signal that is not recorded. *)
Theorem session_data_only_grows (rid : string) (evs more : list RecorderSession.UiEvent) :
  let s1 := RecorderSession.run trim evs (RecorderSession.open rid) in
  let s2 := RecorderSession.run trim (evs ++ more) (RecorderSession.open rid) in
  SignalRecorder.recordedPath (RecorderSession.recorder s1)
    `prefix_of` SignalRecorder.recordedPath (RecorderSession.recorder s2) /\
  SignalRecorder.recordedSignals (RecorderSession.recorder s1)
    `prefix_of` SignalRecorder.recordedSignals (RecorderSession.recorder s2) /\
  (forall p, RecorderSession.preview s2 = Some p ->
     Route.id p = rid /\
     Route.path p `prefix_of` SignalRecorder.recordedPath (RecorderSession.recorder s2) /\
     Route.signals p `prefix_of` SignalRecorder.recordedSignals (RecorderSession.recorder s2)).
Proof.
  intros s1 s2.
  assert (Hgrow : forall more s,
            SignalRecorder.recordedPath (RecorderSession.recorder s)
              `prefix_of` SignalRecorder.recordedPath
                            (RecorderSession.recorder (RecorderSession.run trim more s)) /\
            SignalRecorder.recordedSignals (RecorderSession.recorder s)
              `prefix_of` SignalRecorder.recordedSignals
                            (RecorderSession.recorder (RecorderSession.run trim more s))).
  { induction more0 as [| ev more0 IH]; intros s; simpl; [split; reflexivity |].
    destruct (session_step_grows s ev) as [H1 H2].
    destruct (IH (RecorderSession.step trim s ev)) as [H3 H4].
    split; etransitivity; eassumption. }
  assert (E : s2 = RecorderSession.run trim more s1)
    by (subst s1 s2; unfold RecorderSession.run; apply fold_left_app).
  destruct (Hgrow more s1) as [H1 H2]. rewrite <- E in H1, H2.
  split; [exact H1 |]. split; [exact H2 |].
  destruct (session_run_consistent rid (evs ++ more) _ (session_open_consistent rid))
    as (_ & _ & Hprev & _).
  exact Hprev.
Qed.

(** X25.  Nothing is recorded before the route is started: as long as the
    session shows the name dialog ([INIT_ROUTE]), whatever events occurred,
    the path and the signals are empty, the recorder waits for green with
    no timer pending, and nothing was published or saved. *)
Theorem nothing_recorded_before_start (rid : string) (evs : list RecorderSession.UiEvent) :
  let s := RecorderSession.run trim evs (RecorderSession.open rid) in
  SignalRecorder.uiPhase (RecorderSession.recorder s) = SignalRecorder.INIT_ROUTE ->
  SignalRecorder.recordedPath (RecorderSession.recorder s) = [] /\
  SignalRecorder.recordedSignals (RecorderSession.recorder s) = [] /\
  SignalRecorder.signalPhase (RecorderSession.recorder s) = SignalRecorder.WAITING_GREEN /\
  SignalRecorder.timers (RecorderSession.recorder s) = [] /\
  RecorderSession.preview s = None /\
  RecorderSession.handedOver s = None.
Proof.
  intros s.
  destruct (session_run_consistent rid evs _ (session_open_consistent rid))
    as (_ & Hquiet & _).
  exact Hquiet.
Qed.

(** X26.  The route that "Finish" gives to [saveRoute] is the recording:
    it has the session's route id and name, every recorded path point and
    signal in order, the first and the last path point as start and end
    (neither when the path is empty), and the session is unmounted, so it
    is handed over once. *)
Theorem finish_hands_over_the_recording (rid : string) (evs : list RecorderSession.UiEvent)
    (r : Route) :
  let s := RecorderSession.run trim evs (RecorderSession.open rid) in
  RecorderSession.handedOver s = Some r ->
  RecorderSession.mounted s = false /\
  Route.id r = rid /\
  Route.name r = SignalRecorder.routeName (RecorderSession.recorder s) /\
  Route.path r = SignalRecorder.recordedPath (RecorderSession.recorder s) /\
  Route.signals r = SignalRecorder.recordedSignals (RecorderSession.recorder s) /\
  Route.startLocation r = head (Route.path r) /\
  Route.endLocation r = last (Route.path r) /\
  (Route.path r = [] -> Route.startLocation r = None /\ Route.endLocation r = None) /\
  (forall evs', RecorderSession.run trim evs' s = s).
Proof.
  intros s Hr.
  destruct (session_run_consistent rid evs _ (session_open_consistent rid))
    as (_ & _ & _ & Hhand).
  destruct (Hhand r Hr) as (H1 & H2 & H3 & H4 & H5 & H6 & H7). fold s in H1, H3, H4, H5, H6, H7.
  split; [exact H1 |]. split; [exact H2 |]. split; [exact H3 |]. split; [exact H4 |].
  split; [exact H5 |]. split; [now rewrite H4 |]. split; [now rewrite H4 |]. split.
  - intros E. rewrite H6, H7, <- H4, E. split; reflexivity.
  - induction evs' as [| ev evs' IH]; [reflexivity |].
    change (RecorderSession.run trim (ev :: evs') s)
      with (RecorderSession.run trim evs' (RecorderSession.step trim s ev)).
    replace (RecorderSession.step trim s ev) with s; [exact IH |].
    unfold RecorderSession.step. now rewrite H1.
Qed.

End SessionFacts.

Section SessionExamples.

Local Open Scope Q_scope.

(** A route is started, two path points are sampled, a third follows. *)
Lemma session_data_only_grows_witness :
  SignalRecorder.recordedPath
    (RecorderSession.recorder
       (RecorderSession.run Demo.dropSpaces
          [RecorderSession.StartDriving "10:00";
           RecorderSession.PathInterval (Some (Demo.at_ 35.68)) 2000;
           RecorderSession.PathInterval (Some (Demo.at_ 35.681)) 4000]
          (RecorderSession.open "r1")))
  `prefix_of`
  SignalRecorder.recordedPath
    (RecorderSession.recorder
       (RecorderSession.run Demo.dropSpaces
          ([RecorderSession.StartDriving "10:00";
            RecorderSession.PathInterval (Some (Demo.at_ 35.68)) 2000;
            RecorderSession.PathInterval (Some (Demo.at_ 35.681)) 4000]
           ++ [RecorderSession.PathInterval (Some (Demo.at_ 35.682)) 6000])
          (RecorderSession.open "r1"))).
Proof.
  destruct (session_data_only_grows Demo.dropSpaces "r1"
              [RecorderSession.StartDriving "10:00";
               RecorderSession.PathInterval (Some (Demo.at_ 35.68)) 2000;
               RecorderSession.PathInterval (Some (Demo.at_ 35.681)) 4000]
              [RecorderSession.PathInterval (Some (Demo.at_ 35.682)) 6000])
    as (H & _).
  exact H.
Defined.

(** Typing a name, a stray path tick and a stray press before the start. *)
Lemma nothing_recorded_before_start_witness :
  SignalRecorder.recordedPath
    (RecorderSession.recorder
       (RecorderSession.run Demo.dropSpaces
          [RecorderSession.TypeName "Home";
           RecorderSession.PathInterval (Some (Demo.at_ 35.68)) 2000;
           RecorderSession.Recorder (SignalRecorder.Press None 3000 "a" 3000);
           RecorderSession.Recorder (SignalRecorder.TimerExpires 4000)]
          (RecorderSession.open "r1"))) = [].
Proof.
  destruct (nothing_recorded_before_start Demo.dropSpaces "r1"
              [RecorderSession.TypeName "Home";
               RecorderSession.PathInterval (Some (Demo.at_ 35.68)) 2000;
               RecorderSession.Recorder (SignalRecorder.Press None 3000 "a" 3000);
               RecorderSession.Recorder (SignalRecorder.TimerExpires 4000)]
              eq_refl) as [H _].
  exact H.
Defined.

(** A blank name, two path points, "Finish". *)
Lemma finish_hands_over_the_recording_witness :
  exists r,
    RecorderSession.handedOver
      (RecorderSession.run Demo.dropSpaces
         [RecorderSession.TypeName "  ";
          RecorderSession.StartDriving "10:00";
          RecorderSession.PathInterval (Some (Demo.at_ 35.68)) 2000;
          RecorderSession.PathInterval (Some (Demo.at_ 35.681)) 4000;
          RecorderSession.Finish 5000]
         (RecorderSession.open "r1")) = Some r /\
    Route.id r = "r1" /\
    Route.startLocation r = head (Route.path r) /\
    Route.endLocation r = last (Route.path r).
Proof.
  eexists. split; [reflexivity |].
  match goal with
  | |- context [Route.id ?r] =>
      destruct (finish_hands_over_the_recording Demo.dropSpaces "r1"
                  [RecorderSession.TypeName "  ";
                   RecorderSession.StartDriving "10:00";
                   RecorderSession.PathInterval (Some (Demo.at_ 35.68)) 2000;
                   RecorderSession.PathInterval (Some (Demo.at_ 35.681)) 4000;
                   RecorderSession.Finish 5000] r eq_refl)
        as (_ & Hid & _ & _ & _ & Hstart & Hend & _)
  end.
  auto.
Defined.

(** A route with one located and one unlocated signal. *)
Lemma tick_throws_iff_signal_without_location_witness :
  Navigator.updateNavigationLogic Demo.latitudeDistance
    (Some (Demo.routeWith "r1" [Demo.signalNear "s1" 35.6801; Demo.signalNowhere "s2"]))
    (Some Sample.fix0) (Sample.cruising 54) 90000 (Sample.cruising 54)
  = Navigator.Throw.
Proof.
  apply tick_throws_iff_signal_without_location.
  exists (Demo.signalNowhere "s2"). split; [| reflexivity]. right. left.
Defined.

End SessionExamples.

(** ** The application shell *)

Section AppFacts.

Local Open Scope Q_scope.

Variable calculateDistance : Coordinate -> Coordinate -> number.

Lemma mount_coherent (storage : StorageService.Storage) :
  NoDup (StorageService.ids storage) -> App.coherent (App.mount storage).
Proof.
  intros Hnd. split; [reflexivity |]. split; [exact Hnd |].
  unfold App.mount. cbn [App.app App.mode App.activeRouteId].
  split; [intros H; discriminate H | intros H; now contradict H].
Qed.

Lemma positionCallback_cases coords stored st :
  let st' := App.positionCallback calculateDistance coords stored st in
  App.routes st' = App.routes st /\
  App.tempRoute st' = App.tempRoute st /\
  App.userLocation st' = Some coords /\
  (App.mode st' = App.mode st /\ App.activeRouteId st' = App.activeRouteId st \/
   exists nearest,
     RouteFinder.findNearestRoute calculateDistance coords stored (Some 100)
       = Some (Some nearest) /\
     App.mode st' = App.NAVIGATE /\
     App.activeRouteId st' = Some (Route.id nearest)).
Proof.
  unfold App.positionCallback. cbv zeta.
  destruct (RouteFinder.findNearestRoute _ _ _ _) as [[nearest |] |]; simpl;
    repeat split; auto.
  right. now exists nearest.
Qed.

Lemma app_step_coherent (w : App.World) (ev : App.Event) :
  App.coherent w -> App.coherent (App.step calculateDistance w ev).
Proof.
  intros Hw.
  destruct ev as [coords | coords | id | id confirmed | | | route | saved];
    unfold App.step, App.explorerShown, App.navigatorShown, App.recorderShown.
  - destruct Hw as (Hroutes & Hnd & Hmode).
    destruct (positionCallback_cases coords (App.storedRoutes w) (App.app w))
      as (Hr & _ & _ & Hcase).
    unfold App.coherent, App.withApp. cbn [App.app App.storage].
    split; [now rewrite Hr |]. split; [exact Hnd |].
    destruct Hcase as [[-> ->] | (nearest & _ & -> & ->)]; [exact Hmode |].
    split; [intros _ H; discriminate H | reflexivity].
  - exact Hw.
  - destruct (App.mode (App.app w)) eqn:Hm; try exact Hw.
    destruct Hw as (Hroutes & Hnd & Hmode).
    split; [exact Hroutes |]. split; [exact Hnd |].
    cbn [App.withApp App.app App.handleSelectRoute App.mode App.activeRouteId].
    split; [intros _ H; discriminate H | reflexivity].
  - destruct (App.mode (App.app w)) eqn:Hm; try exact Hw.
    unfold App.handleDeleteRoute. destruct confirmed; [| exact Hw].
    destruct Hw as (Hroutes & Hnd & Hmode).
    split; [reflexivity |]. split.
    + cbn [App.storage]. apply deleteRouteResume_NoDup. exact Hnd.
    + exact Hmode.
  - destruct (App.mode (App.app w)) eqn:Hm; try exact Hw.
    destruct Hw as (Hroutes & Hnd & Hmode).
    split; [exact Hroutes |]. split; [exact Hnd |].
    cbn [App.withApp App.app App.setMode App.mode App.activeRouteId].
    split; [intros H; discriminate H |].
    intros H. apply Hmode in H. rewrite Hm in H. discriminate H.
  - destruct (App.mode (App.app w)) eqn:Hm; try exact Hw.
    destruct (App.truthy _); [| exact Hw].
    destruct Hw as (Hroutes & Hnd & Hmode).
    split; [exact Hroutes |]. split; [exact Hnd |].
    cbn [App.withApp App.app App.handleBackToExplorer App.mode App.activeRouteId].
    split; [intros H; discriminate H | intros H; now contradict H].
  - destruct (App.mode (App.app w)) eqn:Hm; exact Hw.
  - destruct (App.mode (App.app w)) eqn:Hm; try exact Hw.
    destruct Hw as (Hroutes & Hnd & Hmode).
    split; [reflexivity |]. split.
    + cbn [App.storage]. destruct saved as [route |]; [| exact Hnd].
      now apply saveRoute_NoDup.
    + cbn [App.app App.handleCreateComplete App.mode App.activeRouteId].
      split; [intros H; discriminate H |].
      intros H. apply Hmode in H. rewrite Hm in H. discriminate H.
Qed.

Lemma app_run_coherent (evs : list App.Event) (w : App.World) :
  App.coherent w -> App.coherent (App.run calculateDistance evs w).
Proof.
  revert w. induction evs as [| ev evs IH]; intros w Hw; [exact Hw |].
  apply IH. now apply app_step_coherent.
Qed.

Lemma filter_id_absent (id : string) (routes : list Route) :
  id ∉ Route.id <$> routes ->
  filter (fun r => Some (Route.id r) = Some id) routes = [].
Proof.
  induction routes as [| route rest IH]; intros Hnotin; [reflexivity |].
  rewrite fmap_cons in Hnotin. apply not_elem_of_cons in Hnotin as [Hne Hnotin].
  rewrite (filter_cons_False (fun r => Some (Route.id r) = Some id) route rest)
    by (intros [= H]; now apply Hne).
  now apply IH.
Qed.

(** With one route per id, [filter] by id and [find] by id agree. *)
Lemma filter_id_find (id : string) (routes : list Route) :
  NoDup (Route.id <$> routes) ->
  filter (fun r => Some (Route.id r) = Some id) routes
    = option_list (List.find (fun r => bool_decide (Route.id r = id)) routes).
Proof.
  induction routes as [| route rest IH]; intros Hnd; [reflexivity |].
  rewrite fmap_cons in Hnd. apply NoDup_cons in Hnd as [Hnotin Hnd].
  cbn [List.find]. destruct (decide (Route.id route = id)) as [Heq | Hne].
  - rewrite (bool_decide_eq_true_2 _ Heq).
    rewrite (filter_cons_True (fun r => Some (Route.id r) = Some id) route rest)
      by now rewrite Heq.
    rewrite filter_id_absent by now rewrite <- Heq.
    reflexivity.
  - rewrite (bool_decide_eq_false_2 _ Hne).
    rewrite (filter_cons_False (fun r => Some (Route.id r) = Some id) route rest)
      by (intros [= H]; now apply Hne).
    now apply IH.
Qed.

(** X27.  From the start of the application, with one stored route per
    id, and after any sequence of position fixes and user actions: the
    route list held by [App] is the stored list, the stored routes still
    have distinct ids, and a route is active exactly when the mode is
    [NAVIGATE]. *)
Theorem app_routes_follow_storage (storage : StorageService.Storage) (evs : list App.Event) :
  NoDup (StorageService.ids storage) ->
  let w := App.run calculateDistance evs (App.mount storage) in
  App.routes (App.app w) = StorageService.getRoutes (App.storage w) /\
  NoDup (Route.id <$> App.routes (App.app w)) /\
  (App.mode (App.app w) = App.NAVIGATE <-> App.activeRouteId (App.app w) <> None).
Proof.
  intros Hnd w.
  destruct (app_run_coherent evs _ (mount_coherent storage Hnd)) as (Hroutes & Hnd' & Hmode).
  fold w in Hroutes, Hnd', Hmode.
  split; [exact Hroutes |]. split; [| exact Hmode].
  rewrite Hroutes. exact Hnd'.
Qed.

(** X28.  Whenever the navigator is shown, the map is given exactly the
    route that [getRouteById] finds in the storage for the active id (the
    route the navigator loads), or no route when that id is not stored. *)
Theorem map_shows_the_navigated_route (storage : StorageService.Storage)
    (evs : list App.Event) :
  NoDup (StorageService.ids storage) ->
  let w := App.run calculateDistance evs (App.mount storage) in
  App.navigatorShown (App.app w) = true ->
  exists id,
    App.activeRouteId (App.app w) = Some id /\
    App.displayRoutes (App.app w)
      = option_list (StorageService.getRouteById id (App.storage w)).
Proof.
  intros Hnd w Hshown.
  destruct (app_run_coherent evs _ (mount_coherent storage Hnd)) as (Hroutes & Hnd' & _).
  fold w in Hroutes, Hnd'.
  unfold App.navigatorShown in Hshown. unfold App.displayRoutes.
  destruct (App.mode (App.app w)); try discriminate Hshown.
  rewrite Hshown.
  destruct (App.activeRouteId (App.app w)) as [id |]; [| discriminate Hshown].
  exists id. split; [reflexivity |].
  unfold StorageService.getRouteById. rewrite <- Hroutes.
  assert (Hfilter := filter_id_find id (App.routes (App.app w))).
  rewrite Hroutes in Hfilter at 1. specialize (Hfilter Hnd').
  destruct (App.tempRoute (App.app w)); exact Hfilter.
Qed.

(** What [findNearestRoute] returns is a nearest route within the
    threshold ... *)
Lemma findNearestRoute_sound userLocation routes threshold best :
  RouteFinder.findNearestRoute calculateDistance userLocation routes threshold
    = Some (Some best) ->
  best ∈ routes /\
  exists s loc,
    s ∈ Route.signals best /\ Signal.location s = Some loc /\
    calculateDistance userLocation loc < default 50 threshold /\
    forall r' s' loc',
      r' ∈ routes -> s' ∈ Route.signals r' -> Signal.location s' = Some loc' ->
      calculateDistance userLocation loc <= calculateDistance userLocation loc'.
Proof.
  unfold RouteFinder.findNearestRoute. cbv zeta.
  destruct (RouteFinder.routesLoop _ _ _ _ _ _) as [[b m] |] eqn:Hloop;
    [| intros H; discriminate H].
  intros [= ->].
  destruct (routesLoop_found _ _ _ routes routes None None _ _ (fun _ H => H)
              (or_introl (conj eq_refl eq_refl)) Hloop)
    as [[Hb _] | (r & s & loc & Hb & Hr & Hs & Hl & Hm & Hnear)]; [discriminate Hb |].
  injection Hb as <-. split; [exact Hr |]. exists s, loc. repeat split; try assumption.
  intros r' s' loc' Hr' Hs' Hl'.
  destruct (Qlt_le_dec (calculateDistance userLocation loc') (default 50 threshold))
    as [Hnear' | Hfar'].
  - destruct (routesLoop_lower_bound _ _ _ _ _ _ _ _ Hloop) as [_ Hlb].
    destruct (Hlb r' s' loc' Hr' Hs' Hl' Hnear') as (d' & Hd' & Hle).
    rewrite Hm in Hd'. now injection Hd' as <-.
  - lra.
Qed.

(** ... and it returns one when there is one and every signal has a
    location. *)
Lemma findNearestRoute_complete userLocation routes threshold :
  Forall (fun r => Forall (fun s => Signal.location s <> None) (Route.signals r)) routes ->
  (exists r s loc,
     r ∈ routes /\ s ∈ Route.signals r /\ Signal.location s = Some loc /\
     calculateDistance userLocation loc < default 50 threshold) ->
  exists best,
    RouteFinder.findNearestRoute calculateDistance userLocation routes threshold
      = Some (Some best).
Proof.
  intros Hlocs (r & s & loc & Hr & Hs & Hl & Hnear).
  unfold RouteFinder.findNearestRoute. cbv zeta.
  destruct (routesLoop_total calculateDistance userLocation (default 50 threshold)
              routes None None Hlocs) as [[b m] Hloop].
  rewrite Hloop.
  destruct (routesLoop_lower_bound _ _ _ _ _ _ _ _ Hloop) as [_ Hlb].
  destruct (Hlb r s loc Hr Hs Hl Hnear) as (d' & Hd' & _).
  destruct (routesLoop_found _ _ _ routes routes None None _ _ (fun _ H => H)
              (or_introl (conj eq_refl eq_refl)) Hloop)
    as [[_ Hm] | (r0 & s0 & loc0 & -> & _)]; [congruence |].
  now exists r0.
Qed.

(** X29.  The answer of [getCurrentPosition] always records the position
    and leaves the routes and the storage alone.  It either leaves mode
    and active route as they are, or it puts the application into
    [NAVIGATE] mode with, as active route, one of the routes read at
    start-up that has a signal less than 100 m from the position, no
    signal of these routes being closer; it does so in every mode, also
    over a route that the user has selected in the meantime.  When every
    signal of the routes read at start-up has a location and one of them
    is less than 100 m from the position, the application is in
    [NAVIGATE] mode afterwards with one of these routes active. *)
Theorem auto_start_is_near (w : App.World) (coords : Coordinate) :
  let w' := App.step calculateDistance w (App.CurrentPosition coords) in
  App.userLocation (App.app w') = Some coords /\
  App.routes (App.app w') = App.routes (App.app w) /\
  App.storage w' = App.storage w /\
  (App.mode (App.app w') = App.mode (App.app w) /\
   App.activeRouteId (App.app w') = App.activeRouteId (App.app w) \/
   exists route s loc,
     App.mode (App.app w') = App.NAVIGATE /\
     App.activeRouteId (App.app w') = Some (Route.id route) /\
     route ∈ App.storedRoutes w /\
     s ∈ Route.signals route /\
     Signal.location s = Some loc /\
     calculateDistance coords loc < 100 /\
     forall r' s' loc',
       r' ∈ App.storedRoutes w -> s' ∈ Route.signals r' -> Signal.location s' = Some loc' ->
       calculateDistance coords loc <= calculateDistance coords loc') /\
  (Forall (fun r => Forall (fun s => Signal.location s <> None) (Route.signals r))
     (App.storedRoutes w) ->
   (exists r s loc,
      r ∈ App.storedRoutes w /\ s ∈ Route.signals r /\ Signal.location s = Some loc /\
      calculateDistance coords loc < 100) ->
   App.mode (App.app w') = App.NAVIGATE /\
   exists route,
     route ∈ App.storedRoutes w /\
     App.activeRouteId (App.app w') = Some (Route.id route)).
Proof.
  intros w'.
  destruct (positionCallback_cases coords (App.storedRoutes w) (App.app w))
    as (Hr & _ & Hloc & Hcase).
  subst w'. unfold App.step, App.withApp. cbn [App.app App.storage].
  split; [exact Hloc |]. split; [exact Hr |]. split; [reflexivity |]. split.
  - destruct Hcase as [[Hm Ha] | (nearest & Hfind & Hm & Ha)]; [left; now split | right].
    destruct (findNearestRoute_sound _ _ _ _ Hfind)
      as (Hin & s & loc & Hs & Hl & Hnear & Hmin).
    exists nearest, s, loc. repeat split; assumption.
  - intros Hlocs Hsome.
    destruct (findNearestRoute_complete coords (App.storedRoutes w) (Some 100) Hlocs Hsome)
      as [best Hbest].
    destruct (findNearestRoute_sound _ _ _ _ Hbest) as (Hin & _).
    unfold App.positionCallback. rewrite Hbest. cbn.
    split; [reflexivity |]. now exists best.
Qed.

End AppFacts.

Section AppExamples.

Local Open Scope Q_scope.

(** Two stored routes; the first has a signal 11 m from the first fix. *)
Lemma app_routes_follow_storage_witness :
  let storage :=
    Some [Demo.routeWith "r1" [Demo.signalNear "s1" 35.6801];
          Demo.routeWith "r2" []] in
  let w :=
    App.run Demo.latitudeDistance
      [App.CurrentPosition (Demo.at_ 35.68); App.BackToExplorer;
       App.DeleteRoute "r1" true; App.StartCreate;
       App.RecorderBack (Some (Demo.routeWith "r3" []))]
      (App.mount storage) in
  App.routes (App.app w) = StorageService.getRoutes (App.storage w) /\
  App.routes (App.app w) = [Demo.routeWith "r2" []; Demo.routeWith "r3" []].
Proof.
  intros storage w.
  assert (Hnd : NoDup (StorageService.ids storage)).
  { apply NoDup_cons. split; [| apply NoDup_singleton].
    intros H. apply list_elem_of_singleton in H. discriminate H. }
  destruct (app_routes_follow_storage Demo.latitudeDistance storage
              [App.CurrentPosition (Demo.at_ 35.68); App.BackToExplorer;
               App.DeleteRoute "r1" true; App.StartCreate;
               App.RecorderBack (Some (Demo.routeWith "r3" []))] Hnd)
    as (Hroutes & _).
  split; [exact Hroutes | reflexivity].
Defined.

(** The second of two stored routes is selected in the explorer. *)
Lemma map_shows_the_navigated_route_witness :
  let storage :=
    Some [Demo.routeWith "r1" [Demo.signalNear "s1" 35.6801];
          Demo.routeWith "r2" []] in
  let w := App.run Demo.latitudeDistance [App.SelectRoute "r2"] (App.mount storage) in
  exists id,
    App.activeRouteId (App.app w) = Some id /\
    App.displayRoutes (App.app w)
      = option_list (StorageService.getRouteById id (App.storage w)).
Proof.
  intros storage w.
  assert (Hnd : NoDup (StorageService.ids storage)).
  { apply NoDup_cons. split; [| apply NoDup_singleton].
    intros H. apply list_elem_of_singleton in H. discriminate H. }
  exact (map_shows_the_navigated_route Demo.latitudeDistance storage
           [App.SelectRoute "r2"] Hnd eq_refl).
Defined.

(** The user has selected the second route; the answer of
    [getCurrentPosition] arrives 11 m from the signal of the first. *)
Lemma auto_start_is_near_witness :
  let w :=
    App.run Demo.latitudeDistance [App.SelectRoute "r2"]
      (App.mount (Some [Demo.routeWith "r1" [Demo.signalNear "s1" 35.6801];
                        Demo.routeWith "r2" []])) in
  let w' := App.step Demo.latitudeDistance w (App.CurrentPosition (Demo.at_ 35.68)) in
  App.activeRouteId (App.app w) = Some "r2" /\
  App.mode (App.app w') = App.NAVIGATE /\
  App.activeRouteId (App.app w') = Some "r1".
Proof.
  intros w w'.
  destruct (auto_start_is_near Demo.latitudeDistance w (Demo.at_ 35.68))
    as (_ & _ & _ & _ & Hswitch).
  destruct Hswitch as (Hmode & route & Hin & Hactive).
  - repeat constructor; discriminate.
  - exists (Demo.routeWith "r1" [Demo.signalNear "s1" 35.6801]),
      (Demo.signalNear "s1" 35.6801), (Demo.at_ 35.6801).
    split; [left |]. split; [left |]. split; reflexivity.
  - split; [reflexivity |]. split; [exact Hmode | reflexivity].
Defined.

End AppExamples.
